(** * The addon data store of HassIO (hassio/addons/data.py)

    A shallow embedding of [AddonsData]: the catalog scan, the installed-state
    store with its two halves, the version-gated merge of catalog changes and
    the read accessors, together with the properties the specification states
    about them. *)

From stdpp Require Import gmap strings list fin_maps pretty.
From Stdlib Require Import ZArith Ascii.

#[local] Set Warnings "-register-all".


(** ** JSON data as Python holds it *)

(** The values [json.loads] produces, floats left out.  A JSON object is a
    Python dict with string keys; its equality does not depend on the order
    of the keys, which is the equality of [gmap]. *)
Inductive value : Type :=
  | VNone
  | VBool (b : bool)
  | VInt (z : Z)
  | VStr (s : string)
  | VList (l : list value)
  | VDict (d : gmap string value).

Abbreviation dict := (gmap string value).

Fixpoint value_eq_dec (v w : value) : Decision (v = w).
Proof.
  refine
    match v, w with
    | VNone, VNone => left _
    | VBool a, VBool b => cast_if (decide (a = b))
    | VInt a, VInt b => cast_if (decide (a = b))
    | VStr a, VStr b => cast_if (decide (a = b))
    | VList a, VList b =>
        cast_if (@decide (a = b) (@list_eq_dec _ value_eq_dec a b))
    | VDict a, VDict b =>
        cast_if (@decide (a = b) (@gmap_eq_dec _ _ _ _ value_eq_dec a b))
    | _, _ => right _
    end; congruence.
Defined.

#[global] Instance value_eq : EqDecision value := value_eq_dec.

(** Python's [bool] is a subclass of [int]: [True == 1] and [False == 0],
    also inside lists and dicts.  [py_norm] sends a value to the
    representative of its [==] class. *)
Fixpoint py_norm (v : value) : value :=
  match v with
  | VBool b => VInt (if b then 1 else 0)
  | VList l => VList (map py_norm l)
  | VDict d => VDict (py_norm <$> d)
  | _ => v
  end.

(** [v == w] in Python. *)
Definition py_eq (v w : value) : bool := bool_decide (py_norm v = py_norm w).

(** ** Exceptions and outcomes *)

Inductive exn : Type :=
  | KeyError
  | TypeError
  | ValueError
  | IndexError
  | AttributeError
  | OSError
  | JSONDecodeError
  | Invalid.    (* voluptuous.Invalid *)

#[global] Instance exn_eq : EqDecision exn.
Proof. solve_decision. Defined.

(** What a call does: it returns, it raises, or it reaches behaviour of a
    Python builtin that this development does not describe ([repr] of a
    container, a format specification, the iteration order of a dict); no
    theorem below speaks about a run of the third kind. *)
Inductive outcome (A : Type) : Type :=
  | Ret (a : A)
  | Raise (e : exn)
  | Unmodelled.

Arguments Ret {A} a.
Arguments Raise {A} e.
Arguments Unmodelled {A}.

#[global] Instance outcome_ret : MRet outcome := λ A a, Ret a.

#[global] Instance outcome_bind : MBind outcome := λ A B f o,
  match o with
  | Ret a => f a
  | Raise e => Raise e
  | Unmodelled => Unmodelled
  end.

(** ** Keys of the stored documents *)

(** Modelled from the spec: the key constants of hassio/const.py, which is
    not among the sources; each is the name of the definition field it
    reads. *)
Definition ATTR_NAME : string := "name".
Definition ATTR_VERSION : string := "version".
Definition ATTR_SLUG : string := "slug".
Definition ATTR_DESCRIPTON : string := "description".
Definition ATTR_STARTUP : string := "startup".
Definition ATTR_BOOT : string := "boot".
Definition ATTR_MAP : string := "map".
Definition ATTR_OPTIONS : string := "options".
Definition ATTR_IMAGE : string := "image".
Definition ATTR_REPOSITORY : string := "repository".
Definition ATTR_URL : string := "url".
Definition ATTR_ARCH : string := "arch".
Definition ATTR_LOCATON : string := "location".

Definition REPOSITORY_CORE : string := "core".
Definition REPOSITORY_LOCAL : string := "local".

(** ** The store *)

(** The fields of an [AddonsData] object.  Every entry of the three addon
    maps is a JSON object: the module only ever stores a schema output or a
    deep copy of one, and the state file is written by [save] alone.
    [arch] is [None] until the architecture is detected. *)
Record AddonsData : Type := mkAddonsData {
  _system_data : gmap string dict;
  _user_data : gmap string dict;
  _addons_cache : gmap string dict;
  _repositories_data : gmap string value;
  arch : value
}.

Definition with_system_data (f : gmap string dict → gmap string dict)
    (st : AddonsData) : AddonsData :=
  mkAddonsData (f (_system_data st)) (_user_data st) (_addons_cache st)
    (_repositories_data st) (arch st).

Definition with_user_data (f : gmap string dict → gmap string dict)
    (st : AddonsData) : AddonsData :=
  mkAddonsData (_system_data st) (f (_user_data st)) (_addons_cache st)
    (_repositories_data st) (arch st).

Definition with_addons_cache (f : gmap string dict → gmap string dict)
    (st : AddonsData) : AddonsData :=
  mkAddonsData (_system_data st) (_user_data st) (f (_addons_cache st))
    (_repositories_data st) (arch st).

Definition with_repositories_data (f : gmap string value → gmap string value)
    (st : AddonsData) : AddonsData :=
  mkAddonsData (_system_data st) (_user_data st) (_addons_cache st)
    (f (_repositories_data st)) (arch st).

(** What leaves the object: a line of the module logger, or one full rewrite
    of the state file with its two sections. *)
Inductive warning : Type :=
  | WarnRepositoryRead (file : string)     (* "Can't read repository information from %s" *)
  | WarnRepositoryParse (file : string)    (* "Repository parse error %s" *)
  | WarnAddonRead (file : string)          (* "Can't read %s" *)
  | WarnAddonInvalid (file : string)       (* "Can't read %s -> %s" *)
  | WarnBuiltin.                           (* "Can't read built-in.json -> %s" *)

Inductive event : Type :=
  | EvWarning (w : warning)
  | EvSave (user system : gmap string dict).

(** A method body: it reads and updates the object, returns or raises, and
    leaves a trace of events.  When it raises, the state is the one reached
    at the point of the raise. *)
Definition M (A : Type) : Type :=
  AddonsData → outcome A * AddonsData * list event.

#[global] Instance M_ret : MRet M := λ A a st, (Ret a, st, []).

#[global] Instance M_bind : MBind M := λ A B f m st,
  match m st with
  | (Ret a, st1, t1) => let '(r, st2, t2) := f a st1 in (r, st2, t1 ++ t2)
  | (Raise e, st1, t1) => (Raise e, st1, t1)
  | (Unmodelled, st1, t1) => (Unmodelled, st1, t1)
  end.

Definition get_self : M AddonsData := λ st, (Ret st, st, []).
Definition update_self (f : AddonsData → AddonsData) : M unit :=
  λ st, (Ret (), f st, []).
Definition emit (ev : event) : M unit := λ st, (Ret (), st, [ev]).
Definition lift {A} (o : outcome A) : M A := λ st, (o, st, []).
Definition raise {A} (e : exn) : M A := lift (Raise e).

(** [try: body except e1, e2, ...: handler]. *)
Definition try_except {A} (body : M A) (caught : list exn)
    (handler : exn → M A) : M A := λ st,
  match body st with
  | (Raise e, st1, t1) =>
      if bool_decide (e ∈ caught)
      then let '(r, st2, t2) := handler e st1 in (r, st2, t1 ++ t2)
      else (Raise e, st1, t1)
  | r => r
  end.

(** [d[k]] on a dict. *)
Definition getitem {V} (d : gmap string V) (k : string) : outcome V :=
  match d !! k with
  | Some v => Ret v
  | None => Raise KeyError
  end.

(** [d.get(k)] on a dict of values. *)
Definition dict_get (d : dict) (k : string) : value := default VNone (d !! k).

(** [d[k]] where [d] is whatever a document holds. *)
Definition py_getitem (v : value) (k : string) : outcome value :=
  match v with
  | VDict d => getitem d k
  | _ => Raise TypeError
  end.

(** ** Persisting *)

(** [save]: the two sections are put together and written out.  The write
    itself is [Config.save], outside the sources; it is recorded as an
    event carrying the document written. *)
Definition save : M unit :=
  st ← get_self;
  emit (EvSave (_user_data st) (_system_data st)).

(** ** Install, uninstall, update *)

(** [copy.deepcopy] is the identity on immutable data. *)
Definition deepcopy {A} (a : A) : A := a.

Definition set_addon_install (addon : string) (version : value) : M unit :=
  st ← get_self;
  entry ← lift (getitem (_addons_cache st) addon);
  update_self (with_system_data <[addon := deepcopy entry]>) ;;
  update_self (with_user_data
    <[addon := {[ ATTR_OPTIONS := VDict ∅; ATTR_VERSION := version ]}]>) ;;
  save.

Definition set_addon_uninstall (addon : string) : M unit :=
  update_self (with_system_data (delete addon)) ;;
  update_self (with_user_data (delete addon)) ;;
  save.

Definition set_addon_update (addon : string) (version : value) : M unit :=
  st ← get_self;
  entry ← lift (getitem (_addons_cache st) addon);
  update_self (with_system_data <[addon := deepcopy entry]>) ;;
  st ← get_self;
  user ← lift (getitem (_user_data st) addon);
  update_self (with_user_data <[addon := <[ATTR_VERSION := version]> user]>) ;;
  save.

Definition set_options (addon : string) (options : value) : M unit :=
  st ← get_self;
  user ← lift (getitem (_user_data st) addon);
  update_self (with_user_data
    <[addon := <[ATTR_OPTIONS := deepcopy options]> user]>) ;;
  save.

Definition set_boot (addon : string) (boot : value) : M unit :=
  st ← get_self;
  user ← lift (getitem (_user_data st) addon);
  update_self (with_user_data <[addon := <[ATTR_BOOT := boot]> user]>) ;;
  save.

Definition is_installed (addon : string) (st : AddonsData) : bool :=
  bool_decide (is_Some (_system_data st !! addon)).

Definition exists_addon (addon : string) (st : AddonsData) : bool :=
  bool_decide (is_Some (_addons_cache st !! addon))
  || bool_decide (is_Some (_system_data st !! addon)).

(** [version_installed]: [self._user_data.get(addon, {}).get(ATTR_VERSION)]. *)
Definition version_installed (addon : string) (st : AddonsData) : value :=
  dict_get (default ∅ (_user_data st !! addon)) ATTR_VERSION.

(** ** Listings *)

(** [list_installed]: [set(self._system_data)]. *)
Definition list_installed (st : AddonsData) : gset string :=
  dom (_system_data st).

Definition list_all (st : AddonsData) : gset string :=
  dom (_system_data st) ∪ dom (_addons_cache st).

Definition list_detached (st : AddonsData) : gset string :=
  filter (λ addon, _addons_cache st !! addon = None) (dom (_system_data st)).

Definition list_repositories (st : AddonsData) : list value :=
  (map_to_list (_repositories_data st)).*2.

(** ** Merging catalog changes into the installed definitions *)

(** One turn of the loop of [merge_update_config]; the result is the new
    value of [have_change]. *)
Definition merge_step (addon : string) (have_change : bool) : M bool :=
  st ← get_self;
  match _addons_cache st !! addon with
  | None => mret have_change                                (* detached *)
  | Some cache =>
      data ← lift (getitem (_system_data st) addon);
      data_version ← lift (getitem data ATTR_VERSION);
      cache_version ← lift (getitem cache ATTR_VERSION);
      if py_eq data_version cache_version then
        if negb (py_eq (VDict data) (VDict cache)) then
          update_self (with_system_data <[addon := deepcopy cache]>) ;;
          mret true
        else mret have_change
      else mret have_change
  end.

Fixpoint merge_loop (order : list string) (have_change : bool) : M bool :=
  match order with
  | [] => mret have_change
  | addon :: rest =>
      have_change ← merge_step addon have_change;
      merge_loop rest have_change
  end.

(** [merge_update_config].  The loop runs over [set(self._system_data)],
    whose iteration order Python does not fix: [order] is that order, a
    listing of [list_installed] without repetition. *)
Definition merge_update_config (order : list string) : M unit :=
  have_change ← merge_loop order false;
  if have_change : bool then save else mret ().

(** ** Read accessors *)

(** [{**a, **b}]: both operands must be mappings.  Interpreters before 3.9
    evaluate both operands before they merge, later ones merge the first
    before they evaluate the second; the two agree except when the first is
    not a mapping and the second raises. *)
Definition dict_unpack2 (base : value) (override : outcome value)
    : outcome dict :=
  match base, override with
  | VDict b, Ret (VDict o) => Ret (o ∪ b)
  | VDict _, Ret _ => Raise TypeError
  | VDict _, Raise e => Raise e
  | _, Ret _ => Raise TypeError
  | _, _ => Unmodelled
  end.

Definition get_options (addon : string) (st : AddonsData) : outcome dict :=
  system ← getitem (_system_data st) addon;
  base ← getitem system ATTR_OPTIONS;
  dict_unpack2 base
    (user ← getitem (_user_data st) addon; getitem user ATTR_OPTIONS).

Definition get_boot (addon : string) (st : AddonsData) : outcome value :=
  user ← getitem (_user_data st) addon;
  match user !! ATTR_BOOT with
  | Some boot => Ret boot
  | None =>
      system ← getitem (_system_data st) addon;
      getitem system ATTR_BOOT
  end.

(** The shape shared by [get_name], [get_description], [get_repository] and
    [get_arch]: [self._addons_cache[addon][key]] when the addon is in the
    cache, else [self._system_data[addon][key]]. *)
Definition cache_or_system_item (key addon : string) (st : AddonsData)
    : outcome value :=
  match _addons_cache st !! addon with
  | Some cache => getitem cache key
  | None =>
      system ← getitem (_system_data st) addon;
      getitem system key
  end.

Definition get_name := cache_or_system_item ATTR_NAME.
Definition get_description := cache_or_system_item ATTR_DESCRIPTON.
Definition get_repository := cache_or_system_item ATTR_REPOSITORY.
Definition get_arch := cache_or_system_item ATTR_ARCH.

Definition get_last_version (addon : string) (st : AddonsData)
    : outcome value :=
  match _addons_cache st !! addon with
  | Some cache => getitem cache ATTR_VERSION
  | None => Ret (version_installed addon st)
  end.

Definition get_url (addon : string) (st : AddonsData) : outcome value :=
  match _addons_cache st !! addon with
  | Some cache => Ret (dict_get cache ATTR_URL)
  | None =>
      system ← getitem (_system_data st) addon;
      Ret (dict_get system ATTR_URL)
  end.


(** ** Image name *)

(** [str(v)], which is also what an empty format specification gives. *)
Definition py_str (v : value) : outcome string :=
  match v with
  | VStr s => Ret s
  | VNone => Ret "None"
  | VBool true => Ret "True"
  | VBool false => Ret "False"
  | VInt z => Ret (pretty z)
  | VList _ | VDict _ => Unmodelled
  end.

(** [template.format(arch=...)], read left to right as the interpreter
    does: literal text, the escapes of the two braces, and replacement
    fields made of a bare name.  A field with a conversion, a format
    specification, an attribute or an index is left undescribed, and so is
    a numeric name. *)
Inductive format_state : Type :=
  | InText
  | AfterOpen
  | AfterClose
  | InField (name : string).

Definition field_special (c : ascii) : bool :=
  bool_decide (c ∈ ["{"; "!"; ":"; "."; "["]%char).

Definition is_digit (c : ascii) : bool :=
  bool_decide (c ∈ ["0"; "1"; "2"; "3"; "4"; "5"; "6"; "7"; "8"; "9"]%char).

Definition format_lookup (name : string) (arch_text : outcome string)
    : outcome string :=
  if decide (name = "arch") then arch_text
  else if decide (name = "") then Raise IndexError
  else if forallb is_digit (String.list_ascii_of_string name) then Unmodelled
  else Raise KeyError.

Fixpoint format_go (fs : format_state) (out : string) (s : string)
    (arch_text : outcome string) : outcome string :=
  match s with
  | EmptyString =>
      match fs with
      | InText => Ret out
      | _ => Raise ValueError
      end
  | String c rest =>
      match fs with
      | InText =>
          if decide (c = "{"%char) then format_go AfterOpen out rest arch_text
          else if decide (c = "}"%char)
          then format_go AfterClose out rest arch_text
          else format_go InText (out +:+ String c "") rest arch_text
      | AfterOpen =>
          if decide (c = "{"%char)
          then format_go InText (out +:+ "{") rest arch_text
          else if decide (c = "}"%char) then
            text ← format_lookup "" arch_text;
            format_go InText (out +:+ text) rest arch_text
          else if field_special c then Unmodelled
          else format_go (InField (String c "")) out rest arch_text
      | AfterClose =>
          if decide (c = "}"%char)
          then format_go InText (out +:+ "}") rest arch_text
          else Raise ValueError
      | InField name =>
          if decide (c = "}"%char) then
            text ← format_lookup name arch_text;
            format_go InText (out +:+ text) rest arch_text
          else if field_special c then Unmodelled
          else format_go (InField (name +:+ String c "")) out rest arch_text
      end
  end.

Definition str_format (template : string) (arch : value) : outcome string :=
  format_go InText "" template (py_str arch).

(** [self._system_data.get(addon, self._addons_cache.get(addon))]. *)
Definition addon_data (addon : string) (st : AddonsData) : option dict :=
  match _system_data st !! addon with
  | Some data => Some data
  | None => _addons_cache st !! addon
  end.

Definition get_image (addon : string) (st : AddonsData) : outcome string :=
  match addon_data addon st with
  | None => Raise TypeError                   (* ATTR_IMAGE in None *)
  | Some data =>
      match data !! ATTR_IMAGE with
      | Some (VStr template) => str_format template (arch st)
      | Some _ => Raise AttributeError        (* no method format *)
      | None =>
          repository ← getitem data ATTR_REPOSITORY;
          slug ← getitem data ATTR_SLUG;
          r ← py_str repository;
          a ← py_str (arch st);
          s ← py_str slug;
          Ret (r +:+ "/" +:+ a +:+ "-addon-" +:+ s)
      end
  end.

Definition need_build (addon : string) (st : AddonsData) : outcome bool :=
  match addon_data addon st with
  | None => Raise TypeError
  | Some data => Ret (bool_decide (data !! ATTR_IMAGE = None))
  end.

(** ** Volume mappings *)

(** [for x in v]: the elements of a list, the characters of a string. *)
Definition py_iter (v : value) : outcome (list value) :=
  match v with
  | VList l => Ret l
  | VStr s => Ret ((λ c, VStr (String c "")) <$> String.list_ascii_of_string s)
  | VDict _ => Unmodelled
  | VNone | VBool _ | VInt _ => Raise TypeError
  end.

(** [mode or 'ro']: [None] and the empty string are false. *)
Definition or_ro (mode : option string) : string :=
  match mode with
  | Some m => if decide (m = "") then "ro" else m
  | None => "ro"
  end.

Section Volumes.

(** [RE_VOLUME.match(volume)] as far as [map_volumes] reads it: [None]
    when the directive does not match, else [group(1)] and [group(2)],
    the latter [None] when the optional mode took no part in the match.
    The pattern MAP_VOLUME is in hassio/addons/validate.py, outside the
    sources, so the matcher is a parameter. *)
Variable RE_VOLUME : string → option (string * option string).

Definition volume_step (volumes : gmap string string) (volume : value)
    : outcome (gmap string string) :=
  match volume with
  | VStr s =>
      match RE_VOLUME s with
      | Some (path, mode) => Ret (<[path := or_ro mode]> volumes)
      | None => Raise AttributeError                 (* None.group *)
      end
  | _ => Raise TypeError
  end.

Fixpoint volume_loop (items : list value) (volumes : gmap string string)
    : outcome (gmap string string) :=
  match items with
  | [] => Ret volumes
  | volume :: rest =>
      volumes ← volume_step volumes volume;
      volume_loop rest volumes
  end.

Definition map_volumes (addon : string) (st : AddonsData)
    : outcome (gmap string string) :=
  system ← getitem (_system_data st) addon;
  directives ← getitem system ATTR_MAP;
  items ← py_iter directives;
  volume_loop items ∅.

End Volumes.

(** Modelled from the spec: the directive grammar ["path[:mode]"] behind
    MAP_VOLUME (hassio/addons/validate.py, outside the sources): a
    non-empty path without a colon, then optionally a colon and a non-empty
    mode without a colon. *)
Fixpoint split_colon (s : string) : string * option string :=
  match s with
  | EmptyString => ("", None)
  | String c rest =>
      if decide (c = ":"%char) then ("", Some rest)
      else let '(path, mode) := split_colon rest in (String c path, mode)
  end.

Definition directive_match (s : string) : option (string * option string) :=
  match split_colon s with
  | (EmptyString, _) => None
  | (path, None) => Some (path, None)
  | (path, Some mode) =>
      match split_colon mode with
      | (String _ _, None) => Some (path, Some mode)
      | _ => None
      end
  end.

(** ** Scanning the repositories *)

(** What a path holds, as far as reading JSON from it goes. *)
Inductive file_content : Type :=
  | Missing
  | Unreadable
  | NotJson
  | Json (v : value).

(** [read_json_file] is in hassio/tools.py, outside the sources.  Its
    callers here expect [OSError] when the file cannot be opened or read and
    [json.JSONDecodeError] when its text is not JSON. *)
Definition read_json_file (f : file_content) : outcome value :=
  match f with
  | Missing | Unreadable => Raise OSError
  | NotJson => Raise JSONDecodeError
  | Json v => Ret v
  end.

(** A [config.json] that [path.glob] finds: its path, its parent directory
    and its content. *)
Record addon_file : Type := mkAddonFile {
  file_path : string;
  file_parent : string;
  file_json : file_content
}.

(** An entry of the directory of git repositories. *)
Record repository_element : Type := mkRepositoryElement {
  element_path : string;
  element_is_dir : bool;
  element_repository_json : file_content;     (* <path>/repository.json *)
  element_configs : list addon_file           (* <path>/**/config.json *)
}.

(** The part of the file system the scan reads. *)
Record filesystem : Type := mkFilesystem {
  path_addons_core : list addon_file;
  path_addons_local : list addon_file;
  path_addons_git : list repository_element;
  builtin_json : file_content                 (* built-in.json *)
}.

Fixpoint for_each {A} (body : A → M unit) (l : list A) : M unit :=
  match l with
  | [] => mret ()
  | x :: rest => body x ;; for_each body rest
  end.

Section Scan.

(** The two schemas of hassio/addons/validate.py and the helper of
    hassio/addons/util.py are outside the sources.  A schema returns the
    validated object or raises [vol.Invalid] ([None] here). *)
Variable SCHEMA_ADDON_CONFIG : value → option dict.
Variable SCHEMA_REPOSITORY_CONFIG : value → option dict.
Variable extract_hash_from_path : string → string.

Definition validate (schema : value → option dict) (v : value) : M dict :=
  match schema v with
  | Some d => mret d
  | None => raise Invalid
  end.

(** The body of the loop of [_read_addons_folder]. *)
Definition read_addon (repository : string) (addon : addon_file) : M unit :=
  try_except
    (addon_config ← lift (read_json_file (file_json addon));
     addon_config ← validate SCHEMA_ADDON_CONFIG addon_config;
     slug ← lift (getitem addon_config ATTR_SLUG);
     slug ← lift (py_str slug);
     let addon_slug := repository +:+ "_" +:+ slug in
     let addon_config :=
       <[ATTR_LOCATON := VStr (file_parent addon)]>
         (<[ATTR_REPOSITORY := VStr repository]> addon_config) in
     update_self (with_addons_cache <[addon_slug := addon_config]>))
    [OSError; Invalid]
    (λ e, if decide (e = OSError)
          then emit (EvWarning (WarnAddonRead (file_path addon)))
          else emit (EvWarning (WarnAddonInvalid (file_path addon)))).

Definition _read_addons_folder (configs : list addon_file)
    (repository : string) : M unit :=
  for_each (read_addon repository) configs.

Definition _read_git_repository (path : repository_element) : M unit :=
  let slug := extract_hash_from_path (element_path path) in
  let repository_info : dict := {[ ATTR_SLUG := VStr slug ]} in
  let repository_file := element_path path +:+ "/repository.json" in
  info ← try_except
    (v ← lift (read_json_file (element_repository_json path));
     d ← validate SCHEMA_REPOSITORY_CONFIG v;
     mret (Some (d ∪ repository_info)))
    [OSError; Invalid]
    (λ e, (if decide (e = OSError)
           then emit (EvWarning (WarnRepositoryRead repository_file))
           else emit (EvWarning (WarnRepositoryParse repository_file))) ;;
          mret None);
  match info with
  | None => mret ()                                       (* return *)
  | Some repository_info =>
      update_self (with_repositories_data <[slug := VDict repository_info]>) ;;
      _read_addons_folder (element_configs path) slug
  end.

(** One of the two loops of [_set_builtin_repositories]: the first cache
    entry of the repository [tag] registers the built-in record and ends
    the loop.  An entry without a repository raises if the loop meets it;
    whether it does, when another entry matches, depends on the order of
    the dict. *)
Definition builtin_loop (tag : string) (builtin_data : value) : M unit :=
  st ← get_self;
  let entries := (map_to_list (_addons_cache st)).*2 in
  let hit := existsb (λ data : dict,
    match data !! ATTR_REPOSITORY with
    | Some r => py_eq r (VStr tag)
    | None => false
    end) entries in
  let lacking := existsb (λ data : dict,
    bool_decide (data !! ATTR_REPOSITORY = None)) entries in
  if lacking then (if hit then lift Unmodelled else raise KeyError)
  else if hit then
    record ← lift (py_getitem builtin_data tag);
    update_self (with_repositories_data <[tag := record]>)
  else mret ().

Definition _set_builtin_repositories (builtin_file : file_content) : M unit :=
  builtin_data ← try_except
    (v ← lift (read_json_file builtin_file); mret (Some v))
    [OSError; JSONDecodeError]
    (λ _, emit (EvWarning WarnBuiltin) ;; mret None);
  match builtin_data with
  | None => mret ()
  | Some builtin_data =>
      builtin_loop REPOSITORY_CORE builtin_data ;;
      builtin_loop REPOSITORY_LOCAL builtin_data
  end.

Definition read_git_element (repository_element : repository_element)
    : M unit :=
  if element_is_dir repository_element
  then _read_git_repository repository_element
  else mret ().

Definition read_data_from_repositories (fs : filesystem) : M unit :=
  update_self (with_addons_cache (λ _, ∅)) ;;
  update_self (with_repositories_data (λ _, ∅)) ;;
  _read_addons_folder (path_addons_core fs) REPOSITORY_CORE ;;
  _read_addons_folder (path_addons_local fs) REPOSITORY_LOCAL ;;
  _set_builtin_repositories (builtin_json fs) ;;
  for_each read_git_element (path_addons_git fs).

(** The repository-config file is missing, cannot be read, or holds JSON
    that fails the schema. *)
Definition repository_config_unusable (path : repository_element) : Prop :=
  element_repository_json path = Missing ∨
  element_repository_json path = Unreadable ∨
  ∃ v, element_repository_json path = Json v ∧
       SCHEMA_REPOSITORY_CONFIG v = None.

(** The warning [_read_git_repository] logs for such a directory. *)
Definition repository_warning (path : repository_element) : warning :=
  let repository_file := element_path path +:+ "/repository.json" in
  match element_repository_json path with
  | Json _ => WarnRepositoryParse repository_file
  | _ => WarnRepositoryRead repository_file
  end.

End Scan.

(** ** Notions used in the statements *)

(** The test of [merge_update_config] on one addon, on the state the loop
    starts from. *)
Definition merge_due (st : AddonsData) (addon : string) : bool :=
  match _addons_cache st !! addon, _system_data st !! addon with
  | Some cache, Some data =>
      match data !! ATTR_VERSION, cache !! ATTR_VERSION with
      | Some data_version, Some cache_version =>
          py_eq data_version cache_version
          && negb (py_eq (VDict data) (VDict cache))
      | _, _ => false
      end
  | _, _ => false
  end.

(** Every installed definition that is also in the catalog carries a
    version on both sides, as the addon schema requires. *)
Definition versioned (st : AddonsData) : Prop :=
  ∀ addon data cache,
    _system_data st !! addon = Some data →
    _addons_cache st !! addon = Some cache →
    is_Some (data !! ATTR_VERSION) ∧ is_Some (cache !! ATTR_VERSION).

(** No brace in [s]. *)
Definition brace_free (s : string) : bool :=
  forallb (λ c, negb (bool_decide (c = "{"%char ∨ c = "}"%char)))
    (String.list_ascii_of_string s).

(** An image template seen as a sequence of pieces: literal text without
    braces, and the architecture placeholder. *)
Inductive piece : Type :=
  | Literal (text : string)
  | Placeholder.

Definition piece_ok (p : piece) : bool :=
  match p with
  | Literal text => brace_free text
  | Placeholder => true
  end.

(** The piece as it is written in the template. *)
Definition piece_source (p : piece) : string :=
  match p with
  | Literal text => text
  | Placeholder => "{arch}"
  end.

(** The piece with the architecture [a] in the place of the placeholder. *)
Definition piece_subst (a : string) (p : piece) : string :=
  match p with
  | Literal text => text
  | Placeholder => a
  end.

Definition join (parts : list string) : string := foldr String.app "" parts.

(** The assignment [volumes[path] = mode or 'ro']. *)
Definition assign_volume (volumes : gmap string string)
    (groups : string * option string) : gmap string string :=
  <[groups.1 := or_ro groups.2]> volumes.

(** The first trace is the second with the warning [w] put in. *)
Definition warning_added (w : warning) (t t' : list event) : Prop :=
  ∃ t1 t2, t' = t1 ++ t2 ∧ t = t1 ++ EvWarning w :: t2.

(** Two runs that end alike, the first with one warning more unless an
    exception ended both before that. *)
Definition differ_by_warning (w : warning)
    (x y : outcome unit * AddonsData * list event) : Prop :=
  x.1.1 = y.1.1 ∧ x.1.2 = y.1.2 ∧
  (warning_added w x.2 y.2 ∨ (x.1.1 ≠ Ret () ∧ x.2 = y.2)).

(** A schema for the examples: a JSON object that has the given keys. *)
Definition object_with (keys : list string) (v : value) : option dict :=
  match v with
  | VDict d =>
      if forallb (λ k, bool_decide (is_Some (d !! k))) keys
      then Some d else None
  | _ => None
  end.

(** ** The state file *)

(** The names of its two sections (data.py:25-26). *)
Definition SYSTEM : string := "system".
Definition USER : string := "user".

(** [self._data] as [save] builds it for the write: [{USER: ..., SYSTEM: ...}]. *)
Definition saved_data (user system : gmap string dict)
    : gmap string (gmap string dict) :=
  <[SYSTEM := system]> {[ USER := user ]}.

(** [__init__] on the document [Config] has loaded: each half is its
    section, empty when the section is not there; the catalog and the
    repository records start empty and the architecture is unknown. *)
Definition __init__ (_data : gmap string (gmap string dict)) : AddonsData :=
  mkAddonsData (default ∅ (_data !! SYSTEM)) (default ∅ (_data !! USER))
    ∅ ∅ VNone.

(** ** Addons to start *)

(** Modelled from the spec: BOOT_AUTO of hassio/const.py, which is not among
    the sources: the boot policy "auto". *)
Definition BOOT_AUTO : string := "auto".

(** The loop of [list_startup] over the keys of [self._system_data] in the
    order [order]; beside the outcome, the addons logged as orphaned, in
    the order of the log.  [get_boot] is called outside the [try]. *)
Fixpoint startup_loop (start_type : value) (st : AddonsData)
    (order : list string) (addon_list : gset string)
    : outcome (gset string) * list string :=
  match order with
  | [] => (Ret addon_list, [])
  | addon :: rest =>
      match get_boot addon st with
      | Ret boot =>
          if negb (py_eq boot (VStr BOOT_AUTO))
          then startup_loop start_type st rest addon_list       (* continue *)
          else
            match (system ← getitem (_system_data st) addon;
                   getitem system ATTR_STARTUP) with
            | Ret startup =>
                startup_loop start_type st rest
                  (if py_eq startup start_type
                   then {[ addon ]} ∪ addon_list else addon_list)
            | Raise KeyError =>
                let '(r, orphaned) :=
                  startup_loop start_type st rest addon_list in
                (r, addon :: orphaned)
            | Raise e => (Raise e, [])
            | Unmodelled => (Unmodelled, [])
            end
      | Raise e => (Raise e, [])
      | Unmodelled => (Unmodelled, [])
      end
  end.

Definition list_startup (order : list string) (start_type : value)
    (st : AddonsData) : outcome (gset string) * list string :=
  startup_loop start_type st order ∅.

(** ** More notions used in the statements *)

(** A run that returns has made exactly one save, of the halves it ends
    with; a run that does not return has made none. *)
Definition saved_in_sync (x : outcome unit * AddonsData * list event)
    : Prop :=
  match x.1.1 with
  | Ret _ => x.2 = [EvSave (_user_data x.1.2) (_system_data x.1.2)]
  | _ => x.2 = []
  end.

(** The effective boot policy of [addon] is "auto". *)
Definition boots_auto (addon : string) (st : AddonsData) : bool :=
  match get_boot addon st with
  | Ret boot => py_eq boot (VStr BOOT_AUTO)
  | _ => false
  end.

(** The startup class the system half of [addon] declares, if any. *)
Definition startup_of (addon : string) (st : AddonsData) : option value :=
  system ← _system_data st !! addon; system !! ATTR_STARTUP.

(** The fields of the object that [merge_update_config] has no business
    with are the same in [st] and [st']. *)
Definition merge_frame (st st' : AddonsData) : Prop :=
  _user_data st' = _user_data st ∧
  _addons_cache st' = _addons_cache st ∧
  _repositories_data st' = _repositories_data st ∧
  arch st' = arch st ∧
  dom (_system_data st') = dom (_system_data st) ∧
  ∀ addon, _addons_cache st !! addon = None →
    _system_data st' !! addon = _system_data st !! addon.

(** ** Notions used in the statements about the scan *)

(** The key and the entry under which [_read_addons_folder] stores a
    validated definition [config] whose slug prints as [slug]. *)
Definition catalog_key (repository slug : string) : string :=
  repository +:+ "_" +:+ slug.

Definition catalog_entry (repository location : string) (config : dict)
    : dict :=
  <[ATTR_LOCATON := VStr location]>
    (<[ATTR_REPOSITORY := VStr repository]> config).

(** A catalog entry as the scan makes them: tagged with its repository and
    its folder, and filed under the repository and its own slug. *)
Definition catalog_entry_ok (key : string) (data : dict) : Prop :=
  ∃ repository location slug s,
    data !! ATTR_REPOSITORY = Some (VStr repository) ∧
    data !! ATTR_LOCATON = Some (VStr location) ∧
    data !! ATTR_SLUG = Some slug ∧
    py_str slug = Ret s ∧
    key = catalog_key repository s.

(** Some entry of the catalog carries the repository [tag]. *)
Definition catalog_has_tag (tag : string) (st : AddonsData) : Prop :=
  ∃ key data, _addons_cache st !! key = Some data ∧
              data !! ATTR_REPOSITORY = Some (VStr tag).

(** Every entry of the catalog carries a repository. *)
Definition catalog_tagged (st : AddonsData) : Prop :=
  ∀ key data, _addons_cache st !! key = Some data →
    ∃ r, data !! ATTR_REPOSITORY = Some (VStr r).

Definition is_warning (ev : event) : Prop :=
  match ev with
  | EvWarning _ => True
  | EvSave _ _ => False
  end.

(** The object once [read_data_from_repositories] has emptied the catalog
    and the repository records. *)
Definition scan_start (st : AddonsData) : AddonsData :=
  with_repositories_data (λ _, ∅) (with_addons_cache (λ _, ∅) st).

(** A property of the object that the two kinds of assignment of the scan
    keep. *)
Definition scan_stable (P : AddonsData → Prop) : Prop :=
  (∀ st repository location config slug s,
     P st → config !! ATTR_SLUG = Some slug → py_str slug = Ret s →
     P (with_addons_cache
          <[catalog_key repository s
              := catalog_entry repository location config]> st)) ∧
  (∀ st key record,
     P st → P (with_repositories_data <[key := record]> st)).

(** [m] keeps [P] and logs nothing but warnings. *)
Definition maintains (P : AddonsData → Prop) {A} (m : M A) : Prop :=
  ∀ st, P st → P (m st).1.2 ∧ Forall is_warning (m st).2.

(** Two objects with the same catalog and the same repository records. *)
Definition same_catalog (st1 st2 : AddonsData) : Prop :=
  _addons_cache st1 = _addons_cache st2 ∧
  _repositories_data st1 = _repositories_data st2.

(** [m] reads nothing but the catalog and the repository records. *)
Definition catalog_bound {A} (m : M A) : Prop :=
  ∀ st1 st2, same_catalog st1 st2 →
    (m st1).1.1 = (m st2).1.1 ∧ (m st1).2 = (m st2).2 ∧
    same_catalog (m st1).1.2 (m st2).1.2.

Section ScanNotions.

Variable SCHEMA_ADDON_CONFIG : value → option dict.

(** The definition file is missing, cannot be read, or holds JSON that
    fails the schema. *)
Definition addon_config_unusable (addon : addon_file) : Prop :=
  file_json addon = Missing ∨
  file_json addon = Unreadable ∨
  ∃ v, file_json addon = Json v ∧ SCHEMA_ADDON_CONFIG v = None.

(** The warning [_read_addons_folder] logs for such a file. *)
Definition addon_warning (addon : addon_file) : warning :=
  match file_json addon with
  | Json _ => WarnAddonInvalid (file_path addon)
  | _ => WarnAddonRead (file_path addon)
  end.

(** The file holds JSON that the schema turns into [config], whose slug is
    the string [slug]. *)
Definition addon_config_valid (addon : addon_file) (config : dict)
    (slug : string) : Prop :=
  ∃ v, file_json addon = Json v ∧ SCHEMA_ADDON_CONFIG v = Some config ∧
       config !! ATTR_SLUG = Some (VStr slug).

End ScanNotions.

(** * Properties *)

(** ** Running method bodies *)

Lemma bind_ret {A B} (m : M A) (f : A → M B) st a st1 t1 :
  m st = (Ret a, st1, t1) →
  (m ≫= f) st = let '(r, st2, t2) := f a st1 in (r, st2, t1 ++ t2).
Proof. intros Hm. unfold mbind, M_bind. by rewrite Hm. Qed.

(** Unfolds the monad operations down to the state-passing function. *)
Ltac run_M :=
  unfold mbind, M_bind, mret, M_ret, get_self, update_self, emit, save,
    raise, lift; cbn.

Lemma getitem_Some {V} (d : gmap string V) k v :
  d !! k = Some v → getitem d k = Ret v.
Proof. intros H. unfold getitem. by rewrite H. Qed.

Lemma getitem_None {V} (d : gmap string V) k :
  d !! k = None → getitem d k = Raise KeyError.
Proof. intros H. unfold getitem. by rewrite H. Qed.

(** ** Install, update, uninstall *)

(** C3.  When the slug is not in the catalog, [set_addon_install] and
    [set_addon_update] raise [KeyError] out of the catalog lookup, which
    comes before the first assignment: the object is left exactly as it was
    (both halves included) and no save is made. *)
Theorem install_update_absent_from_catalog st addon version :
  _addons_cache st !! addon = None →
  set_addon_install addon version st = (Raise KeyError, st, []) ∧
  set_addon_update addon version st = (Raise KeyError, st, []).
Proof.
  intros Hcache. unfold set_addon_install, set_addon_update.
  split; run_M; by rewrite (getitem_None _ _ Hcache).
Qed.

(** A detached addon: installed, gone from the catalog. *)
Lemma install_update_absent_from_catalog_witness :
  let st := mkAddonsData
    {[ "local_bar" := {[ ATTR_VERSION := VStr "1" ]} ]}
    {[ "local_bar" := {[ ATTR_OPTIONS := VDict ∅; ATTR_VERSION := VStr "1" ]} ]}
    ∅ ∅ (VStr "amd64") in
  set_addon_install "local_bar" (VStr "2") st = (Raise KeyError, st, []) ∧
  set_addon_update "local_bar" (VStr "2") st = (Raise KeyError, st, []).
Proof.
  intros st.
  apply (install_update_absent_from_catalog st "local_bar" (VStr "2")).
  reflexivity.
Defined.

(** C4.  For an installed addon that is in the catalog, [set_addon_update]
    puts the catalog entry in the system half, sets the version of the user
    half to [v2] and leaves every other key of the user half, the options
    and the boot override among them, as it was; it saves once. *)
Theorem set_addon_update_frame st addon v2 cache system user :
  _addons_cache st !! addon = Some cache →
  _system_data st !! addon = Some system →
  _user_data st !! addon = Some user →
  ∃ st',
    set_addon_update addon v2 st
      = (Ret (), st', [EvSave (_user_data st') (_system_data st')]) ∧
    _system_data st' !! addon = Some cache ∧
    (∃ user', _user_data st' !! addon = Some user' ∧
       user' !! ATTR_VERSION = Some v2 ∧
       user' !! ATTR_OPTIONS = user !! ATTR_OPTIONS ∧
       user' !! ATTR_BOOT = user !! ATTR_BOOT ∧
       ∀ key, key ≠ ATTR_VERSION → user' !! key = user !! key) ∧
    (∀ other, other ≠ addon →
       _system_data st' !! other = _system_data st !! other ∧
       _user_data st' !! other = _user_data st !! other) ∧
    _addons_cache st' = _addons_cache st.
Proof.
  intros Hcache Hsystem Huser.
  eexists. split.
  { unfold set_addon_update. run_M.
    rewrite (getitem_Some _ _ _ Hcache). cbn.
    rewrite (getitem_Some _ _ _ Huser). cbn. reflexivity. }
  cbn. split; [by rewrite lookup_insert_eq|].
  split.
  { eexists. split; [by rewrite lookup_insert_eq|].
    split; [by rewrite lookup_insert_eq|].
    split; [by rewrite lookup_insert_ne|].
    split; [by rewrite lookup_insert_ne|].
    intros key Hkey. by rewrite lookup_insert_ne. }
  split; [|done].
  intros other Hother. by rewrite !lookup_insert_ne.
Qed.

(** An update from version 1 to 2 that keeps a port option and a manual
    boot. *)
Lemma set_addon_update_frame_witness :
  let entry v : dict := {[ ATTR_VERSION := VStr v; ATTR_NAME := VStr "Bar" ]} in
  let user : dict :=
    {[ ATTR_OPTIONS := VDict {[ "port" := VInt 8080 ]};
       ATTR_BOOT := VStr "manual"; ATTR_VERSION := VStr "1" ]} in
  let st := mkAddonsData {[ "local_bar" := entry "1" ]}
    {[ "local_bar" := user ]} {[ "local_bar" := entry "2" ]} ∅ VNone in
  ∃ st',
    set_addon_update "local_bar" (VStr "2") st
      = (Ret (), st', [EvSave (_user_data st') (_system_data st')]) ∧
    _system_data st' !! "local_bar" = Some (entry "2") ∧
    (∃ user', _user_data st' !! "local_bar" = Some user' ∧
       user' !! ATTR_VERSION = Some (VStr "2") ∧
       user' !! ATTR_OPTIONS = user !! ATTR_OPTIONS ∧
       user' !! ATTR_BOOT = user !! ATTR_BOOT ∧
       ∀ key, key ≠ ATTR_VERSION → user' !! key = user !! key) ∧
    (∀ other, other ≠ "local_bar" →
       _system_data st' !! other = _system_data st !! other ∧
       _user_data st' !! other = _user_data st !! other) ∧
    _addons_cache st' = _addons_cache st.
Proof.
  intros entry user st.
  apply (set_addon_update_frame st "local_bar" (VStr "2")
           (entry "2") (entry "1") user); reflexivity.
Defined.

(** C6.  For a slug that is in the catalog and not installed, install
    followed by uninstall runs without error, makes two saves, and leaves
    the slug in neither half with every other slug as before; when the slug
    had no stray user half either, the object is exactly what it was. *)
Theorem install_then_uninstall st addon version cache :
  _addons_cache st !! addon = Some cache →
  _system_data st !! addon = None →
  ∃ st' saves,
    (set_addon_install addon version ;; set_addon_uninstall addon) st
      = (Ret (), st', saves) ∧
    length saves = 2 ∧
    _system_data st' !! addon = None ∧
    _user_data st' !! addon = None ∧
    (∀ other, other ≠ addon →
       _system_data st' !! other = _system_data st !! other ∧
       _user_data st' !! other = _user_data st !! other) ∧
    _system_data st' = _system_data st ∧
    _addons_cache st' = _addons_cache st ∧
    (_user_data st !! addon = None → st' = st).
Proof.
  intros Hcache Hsystem.
  eexists _, _. split.
  { unfold set_addon_install, set_addon_uninstall. run_M.
    rewrite (getitem_Some _ _ _ Hcache). cbn. reflexivity. }
  cbn. split; [done|].
  split; [by rewrite lookup_delete_eq|].
  split; [by rewrite lookup_delete_eq|].
  split.
  { intros other Hother.
    by rewrite !lookup_delete_ne, !lookup_insert_ne. }
  split; [by rewrite delete_insert_eq, delete_id|].
  split; [done|].
  intros Huser. destruct st as [sys usr cch rep ar]. cbn in *.
  unfold with_user_data, with_system_data. cbn.
  by rewrite !delete_insert_eq, !delete_id.
Qed.

(** On an empty store the round trip gives back the empty store. *)
Lemma install_then_uninstall_witness :
  let cache : dict := {[ ATTR_VERSION := VStr "1"; ATTR_SLUG := VStr "bar" ]} in
  let st := mkAddonsData ∅ ∅ {[ "local_bar" := cache ]} ∅ VNone in
  ∃ st' saves,
    (set_addon_install "local_bar" (VStr "1") ;;
     set_addon_uninstall "local_bar") st = (Ret (), st', saves) ∧
    length saves = 2 ∧
    _system_data st' !! "local_bar" = None ∧
    _user_data st' !! "local_bar" = None ∧
    (∀ other, other ≠ "local_bar" →
       _system_data st' !! other = _system_data st !! other ∧
       _user_data st' !! other = _user_data st !! other) ∧
    _system_data st' = _system_data st ∧
    _addons_cache st' = _addons_cache st ∧
    (_user_data st !! "local_bar" = None → st' = st).
Proof.
  intros cache st.
  apply (install_then_uninstall st "local_bar" (VStr "1") cache); reflexivity.
Defined.

(** ** Read accessors *)

(** C2 as the specification states it fails for the latest version: with
    the addon out of the catalog, [get_last_version] answers from the user
    half ([version_installed]), not from the system half. *)
Lemma get_last_version_not_from_system_half :
  let system : dict := {[ ATTR_VERSION := VStr "1"; ATTR_NAME := VStr "Bar" ]} in
  let user : dict := {[ ATTR_OPTIONS := VDict ∅; ATTR_VERSION := VStr "2" ]} in
  let st := mkAddonsData {[ "local_bar" := system ]} {[ "local_bar" := user ]}
              ∅ ∅ VNone in
  _addons_cache st !! "local_bar" = None ∧
  _system_data st !! "local_bar" = Some system ∧
  getitem system ATTR_VERSION = Ret (VStr "1") ∧
  get_last_version "local_bar" st = Ret (VStr "2") ∧
  ¬ (get_last_version "local_bar" st = getitem system ATTR_VERSION).
Proof. cbv zeta. repeat split; try reflexivity. vm_compute. discriminate. Qed.

(** C2, amended.  Each descriptive accessor answers from the catalog entry
    when the slug is in the catalog.  Otherwise name, description,
    repository, url and architectures come from the system half of the
    installed record (a [KeyError] when there is none), and the latest
    version is the version of the user half, [None] when there is none. *)
Theorem descriptive_accessors st addon :
  match _addons_cache st !! addon with
  | Some cache =>
      get_name addon st = getitem cache ATTR_NAME ∧
      get_description addon st = getitem cache ATTR_DESCRIPTON ∧
      get_repository addon st = getitem cache ATTR_REPOSITORY ∧
      get_arch addon st = getitem cache ATTR_ARCH ∧
      get_url addon st = Ret (dict_get cache ATTR_URL) ∧
      get_last_version addon st = getitem cache ATTR_VERSION
  | None =>
      match _system_data st !! addon with
      | Some system =>
          get_name addon st = getitem system ATTR_NAME ∧
          get_description addon st = getitem system ATTR_DESCRIPTON ∧
          get_repository addon st = getitem system ATTR_REPOSITORY ∧
          get_arch addon st = getitem system ATTR_ARCH ∧
          get_url addon st = Ret (dict_get system ATTR_URL)
      | None =>
          get_name addon st = Raise KeyError ∧
          get_description addon st = Raise KeyError ∧
          get_repository addon st = Raise KeyError ∧
          get_arch addon st = Raise KeyError ∧
          get_url addon st = Raise KeyError
      end ∧
      get_last_version addon st =
        Ret (match _user_data st !! addon with
             | Some user => dict_get user ATTR_VERSION
             | None => VNone
             end)
  end.
Proof.
  unfold get_name, get_description, get_repository, get_arch, get_url,
    get_last_version, cache_or_system_item, version_installed.
  destruct (_addons_cache st !! addon) as [cache|] eqn:Hcache; [done|].
  split.
  - destruct (_system_data st !! addon) as [system|] eqn:Hsystem.
    + by rewrite (getitem_Some _ _ _ Hsystem).
    + by rewrite (getitem_None _ _ Hsystem).
  - by destruct (_user_data st !! addon).
Qed.

(** C5.  [get_options] is the union of the two option dicts in which the
    user half wins key by key. *)
Theorem get_options_merge st addon system user base override :
  _system_data st !! addon = Some system →
  system !! ATTR_OPTIONS = Some (VDict base) →
  _user_data st !! addon = Some user →
  user !! ATTR_OPTIONS = Some (VDict override) →
  ∃ options,
    get_options addon st = Ret options ∧
    ∀ key, options !! key =
      match override !! key with
      | Some v => Some v
      | None => base !! key
      end.
Proof.
  intros Hsystem Hbase Huser Hoverride.
  exists (override ∪ base). split.
  - unfold get_options.
    rewrite (getitem_Some _ _ _ Hsystem). cbn.
    rewrite (getitem_Some _ _ _ Hbase). cbn.
    rewrite (getitem_Some _ _ _ Huser). cbn.
    by rewrite (getitem_Some _ _ _ Hoverride).
  - intros key. rewrite lookup_union.
    destruct (override !! key), (base !! key); done.
Qed.

(** Defaults [{a:1, b:2}] under the user choice [{b:3}] give [{a:1, b:3}]. *)
Lemma get_options_merge_witness :
  let system : dict :=
    {[ ATTR_OPTIONS := VDict {[ "a" := VInt 1; "b" := VInt 2 ]} ]} in
  let user : dict := {[ ATTR_OPTIONS := VDict {[ "b" := VInt 3 ]} ]} in
  let st := mkAddonsData {[ "local_bar" := system ]} {[ "local_bar" := user ]}
              ∅ ∅ VNone in
  get_options "local_bar" st = Ret {[ "a" := VInt 1; "b" := VInt 3 ]}.
Proof.
  intros system user st.
  destruct (get_options_merge st "local_bar" system user
              {[ "a" := VInt 1; "b" := VInt 2 ]} {[ "b" := VInt 3 ]})
    as (options & -> & Hkeys); [reflexivity..|].
  f_equal. apply map_eq. intros key. rewrite Hkeys.
  destruct (decide (key = "b")) as [->|Hb]; [reflexivity|].
  destruct (decide (key = "a")) as [->|Ha]; [reflexivity|].
  rewrite lookup_singleton_ne by done.
  rewrite !(lookup_insert_ne _ "a") by done.
  by rewrite !lookup_singleton_ne by done.
Defined.

(** ** Image name *)


Lemma string_app_cons x (a b : string) : String x a +:+ b = String x (a +:+ b).
Proof. reflexivity. Qed.

Lemma string_app_assoc (a b c : string) : (a +:+ b) +:+ c = a +:+ b +:+ c.
Proof.
  induction a as [|x a IH]; [done|]. by rewrite !string_app_cons, IH.
Qed.

Lemma string_app_nil_r (a : string) : a +:+ "" = a.
Proof. induction a as [|x a IH]; [done|]. by rewrite string_app_cons, IH. Qed.

(** Literal text goes to the output as it is. *)
Lemma format_go_literal pre out rest arch_text :
  brace_free pre = true →
  format_go InText out (pre +:+ rest) arch_text
    = format_go InText (out +:+ pre) rest arch_text.
Proof.
  revert out. induction pre as [|c pre IH]; intros out Hfree.
  - change ("" +:+ rest) with rest. by rewrite string_app_nil_r.
  - cbn in Hfree. apply andb_true_iff in Hfree as [Hc Hpre].
    apply negb_true_iff, bool_decide_eq_false in Hc.
    rewrite string_app_cons. cbn [format_go]. destruct (decide (c = "{"%char)) as [->|_]; [tauto|].
    destruct (decide (c = "}"%char)) as [->|_]; [tauto|].
    rewrite IH by done. by rewrite string_app_assoc.
Qed.

(** The placeholder is replaced by the text of the architecture. *)
Lemma format_go_placeholder out rest a :
  format_go InText out ("{arch}" +:+ rest) (Ret a)
    = format_go InText (out +:+ a) rest (Ret a).
Proof. reflexivity. Qed.

Lemma format_go_pieces pieces out a :
  forallb piece_ok pieces = true →
  format_go InText out (join (piece_source <$> pieces)) (Ret a)
    = Ret (out +:+ join (piece_subst a <$> pieces)).
Proof.
  revert out. induction pieces as [|p pieces IH]; intros out Hok.
  - cbn. by rewrite string_app_nil_r.
  - cbn in Hok. apply andb_true_iff in Hok as [Hp Hpieces].
    cbn [fmap list_fmap join foldr]. fold (join (piece_source <$> pieces)).
    fold (join (piece_subst a <$> pieces)).
    destruct p as [text|]; cbn [piece_source piece_subst].
    + rewrite format_go_literal by done. rewrite IH by done.
      by rewrite string_app_assoc.
    + rewrite format_go_placeholder. rewrite IH by done.
      by rewrite string_app_assoc.
Qed.

Lemma str_format_pieces pieces a :
  forallb piece_ok pieces = true →
  str_format (join (piece_source <$> pieces)) (VStr a)
    = Ret (join (piece_subst a <$> pieces)).
Proof.
  intros Hok. unfold str_format. cbn [py_str].
  by rewrite format_go_pieces.
Qed.

(** C8.  With [data] the definition the slug resolves to and the detected
    architecture [a]: a declared image template is formatted with the
    architecture, so that a template made of brace-free text and [{arch}]
    placeholders gives the template with [a] in the place of each
    placeholder; without a template the name is built from the repository
    and the slug fields of the definition; and [need_build] is true exactly
    when no template is declared. *)
Theorem image_name st addon data a :
  addon_data addon st = Some data →
  arch st = VStr a →
  (∀ template, data !! ATTR_IMAGE = Some (VStr template) →
     get_image addon st = str_format template (VStr a) ∧
     ∀ pieces, template = join (piece_source <$> pieces) →
       forallb piece_ok pieces = true →
       get_image addon st = Ret (join (piece_subst a <$> pieces))) ∧
  (∀ repository slug, data !! ATTR_IMAGE = None →
     data !! ATTR_REPOSITORY = Some (VStr repository) →
     data !! ATTR_SLUG = Some (VStr slug) →
     get_image addon st
       = Ret (repository +:+ "/" +:+ a +:+ "-addon-" +:+ slug)) ∧
  need_build addon st = Ret (bool_decide (data !! ATTR_IMAGE = None)) ∧
  (need_build addon st = Ret true ↔ data !! ATTR_IMAGE = None).
Proof.
  intros Hdata Harch. unfold get_image, need_build. rewrite Hdata, Harch.
  split; [|split; [|split]].
  - intros template Himage. rewrite Himage. split; [done|].
    intros pieces -> Hok. by apply str_format_pieces.
  - intros repository slug Himage Hrepository Hslug. rewrite Himage.
    rewrite (getitem_Some _ _ _ Hrepository). cbn.
    by rewrite (getitem_Some _ _ _ Hslug).
  - done.
  - split.
    + intros [= Hb]. by apply bool_decide_eq_true in Hb.
    + intros Himage. f_equal. by apply bool_decide_eq_true.
Qed.

(** A remote image for [foo], a local build for [bar], on amd64. *)
Lemma image_name_witness :
  let foo : dict :=
    {[ ATTR_IMAGE := VStr "vendor/{arch}-foo"; ATTR_SLUG := VStr "foo";
       ATTR_REPOSITORY := VStr "a0d7b954" ]} in
  let bar : dict :=
    {[ ATTR_SLUG := VStr "bar"; ATTR_REPOSITORY := VStr "local" ]} in
  let st := mkAddonsData {[ "local_bar" := bar ]} ∅
              {[ "a0d7b954_foo" := foo; "local_bar" := bar ]} ∅
              (VStr "amd64") in
  (get_image "a0d7b954_foo" st = Ret "vendor/amd64-foo" ∧
   need_build "a0d7b954_foo" st = Ret false) ∧
  (get_image "local_bar" st = Ret "local/amd64-addon-bar" ∧
   need_build "local_bar" st = Ret true).
Proof.
  intros foo bar st. split.
  - destruct (image_name st "a0d7b954_foo" foo "amd64")
      as (Htemplate & _ & Hbuild & _); [reflexivity..|].
    split; [|exact Hbuild].
    destruct (Htemplate "vendor/{arch}-foo") as [_ Hsubst]; [reflexivity|].
    apply (Hsubst [Literal "vendor/"; Placeholder; Literal "-foo"]);
      reflexivity.
  - destruct (image_name st "local_bar" bar "amd64")
      as (_ & Hlocal & Hbuild & _); [reflexivity..|].
    split; [|exact Hbuild].
    apply (Hlocal "local" "bar"); reflexivity.
Defined.

(** C10.  For an installed slug the image name and the build flag are
    computed from the system half and the architecture alone: two objects
    that agree on those give the same answers, whatever their catalogs
    hold.  The catalog entry is read only when the slug is not installed. *)
Theorem image_from_system_half st st' addon system :
  _system_data st !! addon = Some system →
  _system_data st' !! addon = Some system →
  arch st' = arch st →
  addon_data addon st = Some system ∧
  get_image addon st' = get_image addon st ∧
  need_build addon st' = need_build addon st ∧
  ∀ st0, _system_data st0 !! addon = None →
    addon_data addon st0 = _addons_cache st0 !! addon.
Proof.
  intros Hsystem Hsystem' Harch.
  unfold get_image, need_build, addon_data.
  rewrite Hsystem, Hsystem', Harch. repeat split; try done.
  intros st0 Hnone. by rewrite Hnone.
Qed.

(** The catalog gains an image template; the installed addon keeps its
    local build until its system half is gone. *)
Lemma image_from_system_half_witness :
  let installed : dict :=
    {[ ATTR_SLUG := VStr "bar"; ATTR_REPOSITORY := VStr "local" ]} in
  let changed : dict := <[ATTR_IMAGE := VStr "vendor/{arch}-bar"]> installed in
  let st := mkAddonsData {[ "local_bar" := installed ]} ∅
              {[ "local_bar" := installed ]} ∅ (VStr "amd64") in
  let st' := with_addons_cache (λ _, {[ "local_bar" := changed ]}) st in
  get_image "local_bar" st' = Ret "local/amd64-addon-bar" ∧
  need_build "local_bar" st' = Ret true ∧
  get_image "local_bar" (with_system_data (delete "local_bar") st')
    = Ret "vendor/amd64-bar".
Proof.
  intros installed changed st st'.
  destruct (image_from_system_half st st' "local_bar" installed)
    as (_ & Himage & Hbuild & _); [reflexivity..|].
  rewrite Himage, Hbuild. repeat split; reflexivity.
Defined.

(** ** Volume mappings *)

Section VolumesProperties.

Variable RE_VOLUME : string → option (string * option string).

Lemma volume_loop_matched directives parsed volumes :
  Forall2 (λ s groups, RE_VOLUME s = Some groups) directives parsed →
  volume_loop RE_VOLUME (VStr <$> directives) volumes
    = Ret (foldl assign_volume volumes parsed).
Proof.
  intros Hmatch. revert volumes.
  induction Hmatch as [|s [path mode] directives parsed Hs _ IH];
    intros volumes; [done|].
  cbn. rewrite Hs. cbn. apply IH.
Qed.

Lemma assign_volume_other parsed volumes path :
  (∀ j groups, parsed !! j = Some groups → groups.1 ≠ path) →
  foldl assign_volume volumes parsed !! path = volumes !! path.
Proof.
  revert volumes. induction parsed as [|g parsed IH]; intros volumes Hother;
    [done|].
  cbn. rewrite IH.
  - unfold assign_volume. apply lookup_insert_ne. by apply (Hother 0).
  - intros j groups Hj. by apply (Hother (S j)).
Qed.

Lemma assign_volume_last parsed volumes i path mode :
  parsed !! i = Some (path, mode) →
  (∀ j groups, i < j → parsed !! j = Some groups → groups.1 ≠ path) →
  foldl assign_volume volumes parsed !! path = Some (or_ro mode).
Proof.
  revert volumes i.
  induction parsed as [|g parsed IH]; intros volumes i Hi Hlater; [done|].
  destruct i as [|i]; cbn in *.
  - injection Hi as ->. rewrite assign_volume_other.
    + unfold assign_volume. cbn. apply lookup_insert_eq.
    + intros j groups Hj. apply (Hlater (S j)); [lia|done].
  - apply (IH _ i); [done|].
    intros j groups Hij Hj. apply (Hlater (S j)); [lia|done].
Qed.

Lemma assign_volume_keys parsed volumes path :
  is_Some (foldl assign_volume volumes parsed !! path) ↔
  is_Some (volumes !! path) ∨ ∃ mode, (path, mode) ∈ parsed.
Proof.
  revert volumes. induction parsed as [|[p m] parsed IH]; intros volumes.
  - cbn. split; [auto|]. intros [?|[mode Hin]]; [done|].
    by apply elem_of_nil in Hin.
  - cbn. rewrite IH. unfold assign_volume. cbn.
    rewrite lookup_insert. split.
    + intros [Hsome|[mode Hin]].
      * case_decide as Hp; [|by left].
        subst. right. exists m. apply list_elem_of_here.
      * right. exists mode. by apply list_elem_of_further.
    + intros [Hsome|[mode Hin]].
      * left. case_decide; [by eexists|done].
      * apply elem_of_cons in Hin as [[= -> ->]|Hin].
        -- left. rewrite decide_True by done. by eexists.
        -- right. by exists mode.
Qed.

(** C9.  When every directive of the installed addon matches, with groups
    [parsed], [map_volumes] returns the dict built by assigning, in order,
    the mode of each directive (["ro"] when it has none) to its path: its
    keys are the paths of the directives, and a path is mapped to the mode
    of the last directive that names it. *)
Theorem map_volumes_directives st addon system directives parsed :
  _system_data st !! addon = Some system →
  system !! ATTR_MAP = Some (VList (VStr <$> directives)) →
  Forall2 (λ s groups, RE_VOLUME s = Some groups) directives parsed →
  ∃ volumes,
    map_volumes RE_VOLUME addon st = Ret volumes ∧
    volumes = foldl assign_volume ∅ parsed ∧
    (∀ path, is_Some (volumes !! path) ↔ ∃ mode, (path, mode) ∈ parsed) ∧
    (∀ i path mode, parsed !! i = Some (path, mode) →
       (∀ j groups, i < j → parsed !! j = Some groups → groups.1 ≠ path) →
       volumes !! path =
         Some (match mode with
               | Some m => if decide (m = "") then "ro" else m
               | None => "ro"
               end)).
Proof.
  intros Hsystem Hmap Hmatch. eexists. split; [|split; [done|split]].
  - unfold map_volumes.
    rewrite (getitem_Some _ _ _ Hsystem). cbn.
    rewrite (getitem_Some _ _ _ Hmap). cbn.
    by apply volume_loop_matched.
  - intros path. rewrite assign_volume_keys, lookup_empty.
    split; [|by right]. intros [[? [=]]|?]; done.
  - intros i path mode Hi Hlater.
    by apply (assign_volume_last _ _ i).
Qed.

End VolumesProperties.

(** ["/data"] is read-only by default, ["/data:rw"] is read-write. *)
Lemma map_volumes_directives_witness :
  let st := mkAddonsData
    {[ "local_bar" := {[ ATTR_MAP := VList [VStr "/data"] ]};
       "local_baz" := {[ ATTR_MAP := VList [VStr "/data:rw"] ]} ]}
    ∅ ∅ ∅ VNone in
  map_volumes directive_match "local_bar" st = Ret {[ "/data" := "ro" ]} ∧
  map_volumes directive_match "local_baz" st = Ret {[ "/data" := "rw" ]}.
Proof.
  intros st. split.
  - destruct (map_volumes_directives directive_match st "local_bar"
                {[ ATTR_MAP := VList [VStr "/data"] ]} ["/data"]
                [("/data", None)])
      as (volumes & -> & -> & _); [reflexivity..| |reflexivity].
    repeat constructor.
  - destruct (map_volumes_directives directive_match st "local_baz"
                {[ ATTR_MAP := VList [VStr "/data:rw"] ]} ["/data:rw"]
                [("/data", Some "rw")])
      as (volumes & -> & -> & _); [reflexivity..| |reflexivity].
    repeat constructor.
Defined.

(** ** Merging catalog changes *)


Lemma existsb_agree {A} (f g : A → bool) (l : list A) :
  (∀ a, a ∈ l → f a = g a) → existsb f l = existsb g l.
Proof.
  induction l as [|x l IH]; intros Hfg; [done|]. cbn.
  rewrite (Hfg x) by apply list_elem_of_here.
  rewrite IH; [done|]. intros a Ha. apply Hfg. by apply list_elem_of_further.
Qed.

Lemma py_eq_refl v : py_eq v v = true.
Proof. unfold py_eq. by apply bool_decide_eq_true. Qed.

Lemma merge_due_differs st addon data cache :
  merge_due st addon = true →
  _system_data st !! addon = Some data →
  _addons_cache st !! addon = Some cache →
  data ≠ cache.
Proof.
  unfold merge_due. intros Hdue Hdata Hcache. rewrite Hcache, Hdata in Hdue.
  destruct (data !! ATTR_VERSION), (cache !! ATTR_VERSION); try done.
  apply andb_true_iff in Hdue as [_ Hne]. apply negb_true_iff in Hne.
  intros ->. by rewrite py_eq_refl in Hne.
Qed.

Lemma merge_step_run st addon have_change :
  is_Some (_system_data st !! addon) →
  versioned st →
  merge_step addon have_change st
    = (Ret (have_change || merge_due st addon),
       match _addons_cache st !! addon with
       | Some cache =>
           if merge_due st addon
           then with_system_data <[addon := cache]> st else st
       | None => st
       end, []).
Proof.
  intros [data Hdata] Hversioned. unfold merge_step, merge_due. run_M.
  destruct (_addons_cache st !! addon) as [cache|] eqn:Hcache.
  2: { by rewrite orb_false_r. }
  destruct (Hversioned _ _ _ Hdata Hcache) as [[dv Hdv] [cv Hcv]].
  rewrite Hdata, Hdv, Hcv.
  rewrite (getitem_Some _ _ _ Hdata). cbn.
  rewrite (getitem_Some _ _ _ Hdv). cbn.
  rewrite (getitem_Some _ _ _ Hcv). cbn.
  destruct (py_eq dv cv); cbn; [|by rewrite orb_false_r].
  destruct (py_eq (VDict data) (VDict cache)); cbn.
  - by rewrite orb_false_r.
  - by rewrite orb_true_r.
Qed.

Lemma merge_loop_run order :
  NoDup order →
  ∀ st have_change,
    (∀ addon, addon ∈ order → is_Some (_system_data st !! addon)) →
    versioned st →
    ∃ st',
      merge_loop order have_change st
        = (Ret (have_change || existsb (merge_due st) order), st', []) ∧
      _user_data st' = _user_data st ∧
      _addons_cache st' = _addons_cache st ∧
      _repositories_data st' = _repositories_data st ∧
      arch st' = arch st ∧
      ∀ addon, _system_data st' !! addon =
        if bool_decide (addon ∈ order) && merge_due st addon
        then _addons_cache st !! addon
        else _system_data st !! addon.
Proof.
  induction 1 as [|addon order Hnotin Hnodup IH];
    intros st have_change Hinstalled Hversioned.
  - exists st. cbn. rewrite orb_false_r. by repeat split.
  - pose proof (merge_step_run st addon have_change
      (Hinstalled _ (list_elem_of_here _ _)) Hversioned) as Hstep.
    set (st1 := match _addons_cache st !! addon with
                | Some cache =>
                    if merge_due st addon
                    then with_system_data <[addon := cache]> st else st
                | None => st
                end) in Hstep.
    assert (Hframe : _user_data st1 = _user_data st ∧
              _addons_cache st1 = _addons_cache st ∧
              _repositories_data st1 = _repositories_data st ∧
              arch st1 = arch st).
    { subst st1. destruct (_addons_cache st !! addon); [|done].
      by destruct (merge_due st addon). }
    destruct Hframe as (Huser & Hcache & Hrepos & Harch).
    assert (Hsys1 : ∀ a, _system_data st1 !! a =
              if bool_decide (a = addon) && merge_due st a
              then _addons_cache st !! a else _system_data st !! a).
    { intros a. subst st1. case_bool_decide as Ha; cbn.
      - subst a. destruct (_addons_cache st !! addon) as [cache|] eqn:Hc.
        + destruct (merge_due st addon); [|done]. cbn.
          by rewrite lookup_insert_eq.
        + unfold merge_due. by rewrite Hc.
      - destruct (_addons_cache st !! addon) as [cache|]; [|done].
        destruct (merge_due st addon); [|done]. cbn.
        by rewrite lookup_insert_ne. }
    assert (Hother : ∀ a, a ≠ addon →
              _system_data st1 !! a = _system_data st !! a).
    { intros a Ha. rewrite Hsys1. by rewrite bool_decide_eq_false_2. }
    assert (Hdue : ∀ a, a ≠ addon → merge_due st1 a = merge_due st a).
    { intros a Ha. unfold merge_due. by rewrite Hcache, Hother. }
    destruct (IH st1 (have_change || merge_due st addon)) as
      (st' & Hrun & Huser' & Hcache' & Hrepos' & Harch' & Hsys').
    { intros a Ha. rewrite Hother; [apply Hinstalled; by right|].
      intros ->. done. }
    { intros a data cache Hdata Hc. rewrite Hcache in Hc.
      destruct (decide (a = addon)) as [->|Ha].
      - rewrite Hsys1 in Hdata. rewrite bool_decide_eq_true_2 in Hdata by done.
        cbn in Hdata. destruct (Hinstalled addon) as [data0 Hdata0];
          [by left|].
        destruct (Hversioned _ _ _ Hdata0 Hc) as [Hv0 Hvc].
        destruct (merge_due st addon).
        + rewrite Hc in Hdata. by injection Hdata as <-.
        + rewrite Hdata0 in Hdata. by injection Hdata as <-.
      - rewrite Hother in Hdata by done. by apply (Hversioned a). }
    exists st'. split; [|split; [congruence|split; [congruence|
      split; [congruence|split; [congruence|]]]]].
    + cbn [merge_loop]. rewrite (bind_ret _ _ _ _ _ _ Hstep).
      rewrite Hrun. cbn.
      rewrite (existsb_agree (merge_due st1) (merge_due st) order).
      * by rewrite orb_assoc.
      * intros a Ha. apply Hdue. intros ->. by apply Hnotin.
    + intros a. rewrite Hsys'. rewrite Hcache.
      destruct (decide (a = addon)) as [->|Ha].
      * rewrite (bool_decide_eq_false_2 (addon ∈ order)) by done.
        rewrite (bool_decide_eq_true_2 (addon ∈ addon :: order))
          by apply list_elem_of_here.
        cbn. rewrite Hsys1. by rewrite bool_decide_eq_true_2.
      * rewrite Hdue by done. rewrite Hother by done.
        assert (bool_decide (a ∈ order) = bool_decide (a ∈ addon :: order))
          as ->; [|done].
        apply bool_decide_ext. rewrite elem_of_cons.
        split; [by right|by intros [?|?]].
Qed.

(** C1 as the specification states it fails: the version that gates the
    merge is the one of the system half.  Here the user half is at version
    2 and the catalog at version 1, as is the system half, whose name the
    catalog corrects: the system half is overwritten and one save is made,
    although no installed addon has the catalog's version in its user
    half. *)
Lemma merge_update_config_ignores_user_version :
  let system : dict := {[ ATTR_VERSION := VStr "1"; ATTR_NAME := VStr "Bar" ]} in
  let cache : dict := {[ ATTR_VERSION := VStr "1"; ATTR_NAME := VStr "Baz" ]} in
  let user : dict := {[ ATTR_OPTIONS := VDict ∅; ATTR_VERSION := VStr "2" ]} in
  let st := mkAddonsData {[ "local_bar" := system ]} {[ "local_bar" := user ]}
              {[ "local_bar" := cache ]} ∅ VNone in
  elements (list_installed st) = ["local_bar"] ∧
  version_installed "local_bar" st = VStr "2" ∧
  cache !! ATTR_VERSION = Some (VStr "1") ∧
  py_eq (VStr "2") (VStr "1") = false ∧
  ∃ st',
    merge_update_config ["local_bar"] st
      = (Ret (), st', [EvSave (_user_data st') (_system_data st')]) ∧
    _system_data st !! "local_bar" = Some system ∧
    _system_data st' !! "local_bar" = Some cache ∧
    system ≠ cache.
Proof.
  cbv zeta. repeat split; try (vm_compute; reflexivity).
  eexists. repeat split; try (vm_compute; reflexivity).
  intros Heq.
  assert (Hname : ({[ ATTR_VERSION := VStr "1"; ATTR_NAME := VStr "Bar" ]} : dict)
            !! ATTR_NAME = Some (VStr "Baz")) by (rewrite Heq; reflexivity).
  vm_compute in Hname. discriminate.
Qed.

(** C1, amended.  Over installed definitions that carry their versions,
    [merge_update_config] overwrites the system half of an installed slug
    that is in the catalog exactly when the version of the SYSTEM half
    equals the version of the catalog entry and the system half differs
    from the entry; detached addons, the user halves and the catalog are
    left alone; one save is made when a system half changed and none
    otherwise.  In particular nothing changes and nothing is saved when the
    version of every installed system half differs from the catalog's. *)
Theorem merge_update_config_system_version st order :
  order ≡ₚ elements (list_installed st) →
  versioned st →
  ∃ st' saves,
    merge_update_config order st = (Ret (), st', saves) ∧
    (∀ addon data cache,
       _system_data st !! addon = Some data →
       _addons_cache st !! addon = Some cache →
       ∃ data_version cache_version,
         data !! ATTR_VERSION = Some data_version ∧
         cache !! ATTR_VERSION = Some cache_version ∧
         _system_data st' !! addon =
           Some (if py_eq data_version cache_version
                    && negb (py_eq (VDict data) (VDict cache))
                 then cache else data)) ∧
    (∀ addon, _addons_cache st !! addon = None →
       _system_data st' !! addon = _system_data st !! addon) ∧
    (∀ addon, _system_data st !! addon = None →
       _system_data st' !! addon = None) ∧
    _user_data st' = _user_data st ∧
    _addons_cache st' = _addons_cache st ∧
    saves = (if bool_decide (_system_data st' = _system_data st)
             then [] else [EvSave (_user_data st') (_system_data st')]) ∧
    ((∀ addon data cache data_version cache_version,
        _system_data st !! addon = Some data →
        _addons_cache st !! addon = Some cache →
        data !! ATTR_VERSION = Some data_version →
        cache !! ATTR_VERSION = Some cache_version →
        py_eq data_version cache_version = false) →
     st' = st ∧ saves = []).
Proof.
  intros Horder Hversioned.
  assert (Hin : ∀ addon, addon ∈ order ↔ is_Some (_system_data st !! addon)).
  { intros addon. rewrite Horder. unfold list_installed.
    by rewrite elem_of_elements, elem_of_dom. }
  assert (Hnodup : NoDup order).
  { rewrite Horder. apply NoDup_elements. }
  destruct (merge_loop_run order Hnodup st false) as
    (st' & Hrun & Huser & Hcache & Hrepos & Harch & Hsys);
    [by intros addon ?%Hin|done|].
  cbn in Hrun.
  assert (Hchanged : existsb (merge_due st) order = true ↔
            _system_data st' ≠ _system_data st).
  { split.
    - intros (addon & Haddon & Hdue)%existsb_exists Heq.
      apply list_elem_of_In in Haddon.
      pose proof (Hsys addon) as Hlookup.
      rewrite bool_decide_eq_true_2, Hdue in Hlookup by done. cbn in Hlookup.
      rewrite Heq in Hlookup.
      apply Hin in Haddon as [data Hdata].
      destruct (_addons_cache st !! addon) as [cache|] eqn:Hc.
      + apply (merge_due_differs st addon data cache); congruence.
      + congruence.
    - intros Hne. destruct (existsb (merge_due st) order) eqn:Hex; [done|].
      exfalso. apply Hne, map_eq. intros addon. rewrite Hsys.
      destruct (bool_decide (addon ∈ order)) eqn:Haddon; [|done].
      apply bool_decide_eq_true in Haddon.
      destruct (merge_due st addon) eqn:Hdue; [|done].
      assert (existsb (merge_due st) order = true); [|congruence].
      apply existsb_exists. exists addon. split; [|done].
      by apply list_elem_of_In. }
  assert (Hsaves : ∃ saves,
            merge_update_config order st = (Ret (), st', saves) ∧
            saves = (if bool_decide (_system_data st' = _system_data st)
                     then []
                     else [EvSave (_user_data st') (_system_data st')])).
  { unfold merge_update_config. rewrite (bind_ret _ _ _ _ _ _ Hrun).
    destruct (existsb (merge_due st) order) eqn:Hex.
    - eexists. split; [reflexivity|].
      rewrite bool_decide_eq_false_2; [done|]. by apply Hchanged.
    - eexists. split; [reflexivity|].
      rewrite bool_decide_eq_true_2; [done|].
      destruct (decide (_system_data st' = _system_data st)); [done|].
      by apply Hchanged in n. }
  destruct Hsaves as (saves & Hmerge & Hsaves).
  exists st', saves. split; [done|]. split; [|split; [|split; [|split;
    [done|split; [done|split; [done|]]]]]].
  - intros addon data cache Hdata Hc.
    destruct (Hversioned _ _ _ Hdata Hc) as [[dv Hdv] [cv Hcv]].
    exists dv, cv. split; [done|]. split; [done|].
    rewrite Hsys. rewrite bool_decide_eq_true_2 by (apply Hin; by eexists).
    unfold merge_due. rewrite Hc, Hdata, Hdv, Hcv. cbn.
    by destruct (py_eq dv cv && negb (py_eq (VDict data) (VDict cache))).
  - intros addon Hc. rewrite Hsys. unfold merge_due. rewrite Hc.
    by rewrite andb_false_r.
  - intros addon Hnone. rewrite Hsys. unfold merge_due. rewrite Hnone.
    destruct (_addons_cache st !! addon); by rewrite andb_false_r.
  - intros Hdiffer.
    assert (Hsame : _system_data st' = _system_data st).
    { apply map_eq. intros addon. rewrite Hsys.
      destruct (merge_due st addon) eqn:Hdue; [|by rewrite andb_false_r].
      exfalso. unfold merge_due in Hdue.
      destruct (_addons_cache st !! addon) as [cache|] eqn:Hc; [|done].
      destruct (_system_data st !! addon) as [data|] eqn:Hdata; [|done].
      destruct (data !! ATTR_VERSION) as [dv|] eqn:Hdv; [|done].
      destruct (cache !! ATTR_VERSION) as [cv|] eqn:Hcv; [|done].
      by rewrite (Hdiffer _ _ _ _ _ Hdata Hc Hdv Hcv) in Hdue. }
    split.
    + destruct st, st'. cbn in *. congruence.
    + by rewrite Hsaves, bool_decide_eq_true_2.
Qed.

(** A correction shipped without a version bump is taken over. *)
Lemma merge_update_config_system_version_witness :
  let system : dict := {[ ATTR_VERSION := VStr "1"; ATTR_NAME := VStr "Bar" ]} in
  let cache : dict := {[ ATTR_VERSION := VStr "1"; ATTR_NAME := VStr "Baz" ]} in
  let user : dict := {[ ATTR_OPTIONS := VDict ∅; ATTR_VERSION := VStr "1" ]} in
  let st := mkAddonsData {[ "local_bar" := system ]} {[ "local_bar" := user ]}
              {[ "local_bar" := cache ]} ∅ VNone in
  ∃ st' saves,
    merge_update_config (elements (list_installed st)) st
      = (Ret (), st', saves) ∧
    _system_data st' !! "local_bar" = Some cache ∧
    _user_data st' = _user_data st.
Proof.
  intros system cache user st.
  destruct (merge_update_config_system_version st
              (elements (list_installed st)))
    as (st' & saves & Hrun & Hmerged & _ & _ & Huser & _).
  - reflexivity.
  - intros addon data entry Hdata Hentry. cbn in Hdata, Hentry.
    apply lookup_singleton_Some in Hdata as [<- <-].
    apply lookup_singleton_Some in Hentry as [_ <-].
    split; eexists; reflexivity.
  - exists st', saves. split; [exact Hrun|]. split; [|exact Huser].
    destruct (Hmerged "local_bar" system cache)
      as (dv & cv & Hdv & Hcv & ->); [reflexivity..|].
    vm_compute in Hdv, Hcv. injection Hdv as <-. injection Hcv as <-.
    reflexivity.
Defined.

(** ** The scan *)

Lemma for_each_cons {A} (body : A → M unit) x l :
  for_each body (x :: l) = (body x ;; for_each body l).
Proof. reflexivity. Qed.


Lemma bind_differ_by_warning {A} w (m : M A) (f g : A → M unit) st :
  (∀ a st1, differ_by_warning w (f a st1) (g a st1)) →
  differ_by_warning w ((m ≫= f) st) ((m ≫= g) st).
Proof.
  intros Hfg. unfold mbind, M_bind.
  destruct (m st) as [[[a|e|] st1] t1];
    [|by repeat split; right..].
  specialize (Hfg a st1).
  destruct (f a st1) as [[r st2] t2], (g a st1) as [[r' st2'] t2'].
  destruct Hfg as (Hr & Hst & Ht). cbn in *. repeat split; [done..|].
  destruct Ht as [(u1 & u2 & -> & ->)|[Hr' ->]].
  - left. exists (t1 ++ u1), u2. by rewrite !app_assoc.
  - by right.
Qed.

Lemma for_each_skip {A} w (body : A → M unit) pre bad post :
  (∀ st, body bad st = (Ret (), st, [EvWarning w])) →
  ∀ st, differ_by_warning w
    (for_each body (pre ++ bad :: post) st) (for_each body (pre ++ post) st).
Proof.
  intros Hbad. induction pre as [|x pre IH]; intros st.
  - cbn [app]. rewrite for_each_cons.
    rewrite (bind_ret _ _ _ _ _ _ (Hbad st)).
    destruct (for_each body post st) as [[r st2] t2]. cbn.
    repeat split. left. by exists [], t2.
  - cbn [app]. rewrite !for_each_cons.
    apply bind_differ_by_warning. intros _ st1. apply IH.
Qed.

Section ScanProperties.

Variable SCHEMA_ADDON_CONFIG : value → option dict.
Variable SCHEMA_REPOSITORY_CONFIG : value → option dict.
Variable extract_hash_from_path : string → string.

Lemma _read_git_repository_unusable path st :
  repository_config_unusable SCHEMA_REPOSITORY_CONFIG path →
  _read_git_repository SCHEMA_ADDON_CONFIG SCHEMA_REPOSITORY_CONFIG
    extract_hash_from_path path st
    = (Ret (), st, [EvWarning (repository_warning path)]).
Proof.
  unfold repository_config_unusable, repository_warning,
    _read_git_repository, try_except, validate.
  intros [Hread|[Hread|(v & Hread & Hschema)]]; rewrite Hread; run_M.
  - reflexivity.
  - reflexivity.
  - rewrite Hschema. reflexivity.
Qed.

(** A repository.json whose text is not JSON is another matter: the
    decode error is not among the exceptions [_read_git_repository]
    handles (it is among those [_set_builtin_repositories] handles), and
    it leaves the scan. *)
Lemma _read_git_repository_not_json path st :
  element_repository_json path = NotJson →
  _read_git_repository SCHEMA_ADDON_CONFIG SCHEMA_REPOSITORY_CONFIG
    extract_hash_from_path path st
    = (Raise JSONDecodeError, st, []).
Proof.
  unfold _read_git_repository, try_except. intros ->. reflexivity.
Qed.

(** X24.  A directory of the git repositories whose repository.json is
    missing, cannot be opened or read ([OSError]) or fails its schema
    ([vol.Invalid]) is passed over:
    [_read_git_repository] logs one warning and leaves the catalog, the
    repository records and the rest of the object as they were.  So the
    whole scan ends with the outcome and the object it ends with when that
    directory is not there, and its log is the log of that scan with the
    warning added (the same log only if an exception ended the scan before
    it reached the directory). *)
Theorem unusable_repository_skipped fs pre bad post st :
  path_addons_git fs = pre ++ bad :: post →
  element_is_dir bad = true →
  repository_config_unusable SCHEMA_REPOSITORY_CONFIG bad →
  let scan := read_data_from_repositories SCHEMA_ADDON_CONFIG
                SCHEMA_REPOSITORY_CONFIG extract_hash_from_path in
  let without := mkFilesystem (path_addons_core fs) (path_addons_local fs)
                   (pre ++ post) (builtin_json fs) in
  (∀ st0,
     _read_git_repository SCHEMA_ADDON_CONFIG SCHEMA_REPOSITORY_CONFIG
       extract_hash_from_path bad st0
       = (Ret (), st0, [EvWarning (repository_warning bad)])) ∧
  (scan fs st).1.1 = (scan without st).1.1 ∧
  (scan fs st).1.2 = (scan without st).1.2 ∧
  (warning_added (repository_warning bad) (scan fs st).2 (scan without st).2
   ∨ ((scan fs st).1.1 ≠ Ret () ∧ (scan fs st).2 = (scan without st).2)).
Proof.
  intros Hgit Hdir Hbad scan without.
  split; [intros st0; by apply _read_git_repository_unusable|].
  assert (Hdiffer : differ_by_warning (repository_warning bad)
            (scan fs st) (scan without st)); [|exact Hdiffer].
  subst scan. unfold read_data_from_repositories. rewrite Hgit. cbn.
  do 5 (apply bind_differ_by_warning; intros _ ?).
  apply for_each_skip. intros st'. unfold read_git_element. rewrite Hdir.
  by apply _read_git_repository_unusable.
Qed.

End ScanProperties.


(** Two repositories, the second without its repository.json: only the
    addon of the first reaches the catalog. *)
Lemma unusable_repository_skipped_witness :
  let scan := read_data_from_repositories
                (object_with [ATTR_SLUG; ATTR_VERSION])
                (object_with [ATTR_NAME]) (λ path, path) in
  let config slug := mkAddonFile (slug +:+ "/config.json") slug
    (Json (VDict {[ ATTR_SLUG := VStr slug; ATTR_VERSION := VStr "1" ]})) in
  let good := mkRepositoryElement "a0d7b954" true
    (Json (VDict {[ ATTR_NAME := VStr "Community" ]})) [config "foo"] in
  let bad := mkRepositoryElement "deadbeef" true Missing [config "bar"] in
  let fs := mkFilesystem [] [] [good; bad] Missing in
  let st := mkAddonsData ∅ ∅ ∅ ∅ VNone in
  (scan fs st).1.1 = Ret () ∧
  _addons_cache (scan fs st).1.2 !! "deadbeef_bar" = None ∧
  is_Some (_addons_cache (scan fs st).1.2 !! "a0d7b954_foo") ∧
  _repositories_data (scan fs st).1.2 !! "deadbeef" = None ∧
  (scan fs st).2 =
    [EvWarning WarnBuiltin;
     EvWarning (WarnRepositoryRead "deadbeef/repository.json")].
Proof.
  intros scan config good bad fs st.
  destruct (unusable_repository_skipped
              (object_with [ATTR_SLUG; ATTR_VERSION])
              (object_with [ATTR_NAME]) (λ path, path)
              fs [good] bad [] st)
    as (_ & Hout & Hst & Hlog); [reflexivity|reflexivity|by left|].
  fold scan in Hout, Hst, Hlog. rewrite Hout, Hst.
  split; [reflexivity|]. split; [reflexivity|].
  split; [by eexists|]. split; reflexivity.
Defined.

(** C7.  The claim fails on the code for a repository-config file that
    cannot be parsed.  Two repositories, the first with a repository.json
    whose text is not JSON: [_read_git_repository] handles [OSError] and
    [vol.Invalid] only, so the decode error (which
    [_set_builtin_repositories] does handle) ends the scan.  No warning is
    logged for the directory (the only warning is the one for
    built-in.json), and the second repository is never read: its addon is
    missing from the catalog, where the scan without the first directory
    puts it. *)
Lemma undecodable_repository_aborts_scan :
  let scan := read_data_from_repositories
                (object_with [ATTR_SLUG; ATTR_VERSION])
                (object_with [ATTR_NAME]) (λ path, path) in
  let config slug := mkAddonFile (slug +:+ "/config.json") slug
    (Json (VDict {[ ATTR_SLUG := VStr slug; ATTR_VERSION := VStr "1" ]})) in
  let bad := mkRepositoryElement "deadbeef" true NotJson [config "bar"] in
  let good := mkRepositoryElement "a0d7b954" true
    (Json (VDict {[ ATTR_NAME := VStr "Community" ]})) [config "foo"] in
  let st := mkAddonsData ∅ ∅ ∅ ∅ VNone in
  (scan (mkFilesystem [] [] [bad; good] Missing) st).1.1
    = Raise JSONDecodeError ∧
  (scan (mkFilesystem [] [] [bad; good] Missing) st).2
    = [EvWarning WarnBuiltin] ∧
  _addons_cache (scan (mkFilesystem [] [] [bad; good] Missing) st).1.2
    !! "a0d7b954_foo" = None ∧
  (scan (mkFilesystem [] [] [good] Missing) st).1.1 = Ret () ∧
  is_Some (_addons_cache (scan (mkFilesystem [] [] [good] Missing) st).1.2
             !! "a0d7b954_foo").
Proof.
  cbv zeta. split; [reflexivity|]. split; [reflexivity|].
  split; [reflexivity|]. split; [reflexivity|]. by eexists.
Qed.

(** * Further properties of the store *)

(** [run_M] until nothing unfolds any more. *)
Ltac run_all := repeat (progress run_M).

Lemma getitem_insert_eq {V} (d : gmap string V) k v :
  getitem (<[k := v]> d) k = Ret v.
Proof. apply getitem_Some, lookup_insert_eq. Qed.

Lemma getitem_insert_ne {V} (d : gmap string V) k k' v :
  k ≠ k' → getitem (<[k := v]> d) k' = getitem d k'.
Proof. intros Hk. unfold getitem. by rewrite lookup_insert_ne. Qed.

(** ** The state file follows the object *)

(** X1.  Each of the five writing methods, whatever the object and its
    arguments, ends in one of two ways: it returns after exactly one save,
    which writes the two halves as they are at the end, or it raises
    without having saved. *)
Theorem writers_save_what_they_leave st addon version options boot :
  saved_in_sync (set_addon_install addon version st) ∧
  saved_in_sync (set_addon_uninstall addon st) ∧
  saved_in_sync (set_addon_update addon version st) ∧
  saved_in_sync (set_options addon options st) ∧
  saved_in_sync (set_boot addon boot st).
Proof.
  unfold saved_in_sync, set_addon_install, set_addon_uninstall,
    set_addon_update, set_options, set_boot.
  split; [|split; [|split; [|split]]]; run_all; unfold getitem.
  - by destruct (_addons_cache st !! addon).
  - done.
  - destruct (_addons_cache st !! addon); [cbn|done].
    by destruct (_user_data st !! addon).
  - by destruct (_user_data st !! addon).
  - by destruct (_user_data st !! addon).
Qed.

(** X2.  What [save] writes, [__init__] reads back: an object started from
    the saved document has the two halves of the object that saved, an
    empty catalog, no repository records and no architecture. *)
Theorem save_then_init st :
  ∃ user system,
    save st = (Ret (), st, [EvSave user system]) ∧
    __init__ (saved_data user system)
      = mkAddonsData (_system_data st) (_user_data st) ∅ ∅ VNone.
Proof. exists (_user_data st), (_system_data st). split; reflexivity. Qed.

(** ** Installing *)

(** X3.  Installing a slug of the catalog, installed before or not, leaves
    it installed at the given version with a user half that holds nothing
    else than empty options: earlier options and an earlier boot override
    of that slug are gone, so that the options read back are the defaults
    of the catalog entry and the boot policy is the one it declares. *)
Theorem install_resets_user_half st addon version cache base :
  _addons_cache st !! addon = Some cache →
  cache !! ATTR_OPTIONS = Some (VDict base) →
  ∃ st' saves,
    set_addon_install addon version st = (Ret (), st', saves) ∧
    is_installed addon st' = true ∧
    version_installed addon st' = version ∧
    _system_data st' !! addon = Some cache ∧
    _user_data st' !! addon
      = Some {[ ATTR_OPTIONS := VDict ∅; ATTR_VERSION := version ]} ∧
    get_options addon st' = Ret base ∧
    get_boot addon st' = getitem cache ATTR_BOOT.
Proof.
  intros Hcache Hbase. eexists _, _. split.
  { unfold set_addon_install. run_M.
    rewrite (getitem_Some _ _ _ Hcache). cbn. reflexivity. }
  unfold is_installed, version_installed, get_options, get_boot, deepcopy.
  cbn. rewrite !lookup_insert_eq, !getitem_insert_eq. cbn.
  split; [done|]. split; [done|]. split; [done|]. split; [done|].
  rewrite (getitem_Some _ _ _ Hbase). cbn.
  rewrite getitem_insert_eq. cbn.
  split; [by rewrite (left_id_L ∅ (∪))|].
  by rewrite lookup_insert_ne, lookup_insert_ne, lookup_empty.
Qed.

(** A reinstall over a user half with a port option and a manual boot. *)
Lemma install_resets_user_half_witness :
  let cache : dict :=
    {[ ATTR_OPTIONS := VDict {[ "port" := VInt 80 ]};
       ATTR_BOOT := VStr "auto"; ATTR_VERSION := VStr "2" ]} in
  let user : dict :=
    {[ ATTR_OPTIONS := VDict {[ "port" := VInt 8080 ]};
       ATTR_BOOT := VStr "manual"; ATTR_VERSION := VStr "1" ]} in
  let st := mkAddonsData {[ "local_bar" := cache ]} {[ "local_bar" := user ]}
              {[ "local_bar" := cache ]} ∅ VNone in
  ∃ st' saves,
    set_addon_install "local_bar" (VStr "2") st = (Ret (), st', saves) ∧
    get_options "local_bar" st' = Ret {[ "port" := VInt 80 ]} ∧
    get_boot "local_bar" st' = Ret (VStr "auto").
Proof.
  intros cache user st.
  destruct (install_resets_user_half st "local_bar" (VStr "2") cache
              {[ "port" := VInt 80 ]})
    as (st' & saves & Hrun & _ & _ & _ & _ & Hoptions & Hboot);
    [reflexivity..|].
  exists st', saves. split; [exact Hrun|]. split; [exact Hoptions|].
  rewrite Hboot. reflexivity.
Defined.

(** ** Updating without a user half *)

(** X4.  [set_addon_update] on a slug that is in the catalog but has no
    user half raises [KeyError] after it has replaced the system half: the
    object now holds the catalog entry for that slug, and nothing was
    saved. *)
Theorem update_without_user_half st addon version cache :
  _addons_cache st !! addon = Some cache →
  _user_data st !! addon = None →
  set_addon_update addon version st
    = (Raise KeyError, with_system_data <[addon := cache]> st, []) ∧
  _system_data (set_addon_update addon version st).1.2 !! addon = Some cache.
Proof.
  intros Hcache Huser.
  assert (Hrun : set_addon_update addon version st
            = (Raise KeyError, with_system_data <[addon := cache]> st, [])).
  { unfold set_addon_update. run_M.
    rewrite (getitem_Some _ _ _ Hcache). cbn.
    by rewrite (getitem_None _ _ Huser). }
  split; [done|]. rewrite Hrun. cbn. apply lookup_insert_eq.
Qed.

(** A system half at version 1 without user half, the catalog at 2. *)
Lemma update_without_user_half_witness :
  let old : dict := {[ ATTR_VERSION := VStr "1" ]} in
  let new : dict := {[ ATTR_VERSION := VStr "2" ]} in
  let st := mkAddonsData {[ "local_bar" := old ]} ∅ {[ "local_bar" := new ]}
              ∅ VNone in
  (set_addon_update "local_bar" (VStr "2") st).1.1 = Raise KeyError ∧
  (set_addon_update "local_bar" (VStr "2") st).2 = [] ∧
  _system_data (set_addon_update "local_bar" (VStr "2") st).1.2 !! "local_bar"
    = Some new.
Proof.
  intros old new st.
  destruct (update_without_user_half st "local_bar" (VStr "2") new)
    as [Hrun Hsystem]; [reflexivity..|].
  split; [by rewrite Hrun|]. split; [by rewrite Hrun|]. exact Hsystem.
Defined.

(** ** Uninstalling *)

(** X5.  [set_addon_uninstall] never raises and saves once.  Afterwards the
    slug is in neither half and the other slugs are as before; on a slug
    that was in neither half the object is unchanged, and a second
    uninstall changes nothing more. *)
Theorem uninstall_total_idempotent st addon :
  ∃ st',
    set_addon_uninstall addon st
      = (Ret (), st', [EvSave (_user_data st') (_system_data st')]) ∧
    _system_data st' !! addon = None ∧
    _user_data st' !! addon = None ∧
    (∀ other, other ≠ addon →
       _system_data st' !! other = _system_data st !! other ∧
       _user_data st' !! other = _user_data st !! other) ∧
    (is_installed addon st = false → _user_data st !! addon = None →
     st' = st) ∧
    (set_addon_uninstall addon st').1.2 = st'.
Proof.
  eexists. split; [reflexivity|]. cbn.
  split; [apply lookup_delete_eq|]. split; [apply lookup_delete_eq|].
  split; [intros other Hother; by rewrite !lookup_delete_ne|].
  split.
  - intros Hinstalled Huser.
    apply bool_decide_eq_false in Hinstalled.
    assert (_system_data st !! addon = None) as Hsystem.
    { destruct (_system_data st !! addon) eqn:H; [|done].
      exfalso. apply Hinstalled. by eexists. }
    destruct st. unfold with_user_data, with_system_data. cbn in *.
    by rewrite !delete_id.
  - unfold set_addon_uninstall. run_all.
    unfold with_user_data, with_system_data. cbn.
    by rewrite !delete_delete_eq.
Qed.

(** ** Boot and options overrides *)

(** X6.  After [set_boot] on a slug with a user half, [get_boot] answers
    the value just set, whatever the system half declares; the boot policy
    of the other slugs, all options, all installed versions and the system
    halves are as before. *)
Theorem set_boot_then_get_boot st addon boot user :
  _user_data st !! addon = Some user →
  ∃ st' saves,
    set_boot addon boot st = (Ret (), st', saves) ∧
    get_boot addon st' = Ret boot ∧
    (∀ other, other ≠ addon → get_boot other st' = get_boot other st) ∧
    (∀ any, get_options any st' = get_options any st) ∧
    (∀ any, version_installed any st' = version_installed any st) ∧
    _system_data st' = _system_data st.
Proof.
  intros Huser. eexists _, _. split.
  { unfold set_boot. run_all. rewrite (getitem_Some _ _ _ Huser). cbn.
    reflexivity. }
  unfold get_boot, get_options, version_installed. cbn.
  split; [by rewrite getitem_insert_eq; cbn; rewrite lookup_insert_eq|].
  split.
  { intros other Hother. by rewrite getitem_insert_ne. }
  split; [|split; [|done]].
  - intros any. destruct (decide (any = addon)) as [->|Hany].
    + rewrite getitem_insert_eq, (getitem_Some _ _ _ Huser). cbn.
      by rewrite getitem_insert_ne.
    + by rewrite getitem_insert_ne.
  - intros any. destruct (decide (any = addon)) as [->|Hany].
    + rewrite lookup_insert_eq, Huser. cbn. unfold dict_get.
      by rewrite lookup_insert_ne.
    + by rewrite lookup_insert_ne.
Qed.

(** A manual boot set over a definition that boots by itself. *)
Lemma set_boot_then_get_boot_witness :
  let system : dict := {[ ATTR_BOOT := VStr "auto" ]} in
  let user : dict := {[ ATTR_OPTIONS := VDict ∅; ATTR_VERSION := VStr "1" ]} in
  let st := mkAddonsData {[ "local_bar" := system ]} {[ "local_bar" := user ]}
              ∅ ∅ VNone in
  get_boot "local_bar" st = Ret (VStr "auto") ∧
  ∃ st' saves,
    set_boot "local_bar" (VStr "manual") st = (Ret (), st', saves) ∧
    get_boot "local_bar" st' = Ret (VStr "manual").
Proof.
  intros system user st. split; [reflexivity|].
  destruct (set_boot_then_get_boot st "local_bar" (VStr "manual") user)
    as (st' & saves & Hrun & Hboot & _); [reflexivity|].
  by exists st', saves.
Defined.

(** X7.  After [set_options] with a dict on an installed slug whose system
    half has default options, [get_options] answers the defaults with the
    new options on top; the boot policies, the installed versions, the
    options of the other slugs and the system halves are as before. *)
Theorem set_options_then_get_options st addon options user system base :
  _user_data st !! addon = Some user →
  _system_data st !! addon = Some system →
  system !! ATTR_OPTIONS = Some (VDict base) →
  ∃ st' saves,
    set_options addon (VDict options) st = (Ret (), st', saves) ∧
    get_options addon st' = Ret (options ∪ base) ∧
    (∀ other, other ≠ addon → get_options other st' = get_options other st) ∧
    (∀ any, get_boot any st' = get_boot any st) ∧
    (∀ any, version_installed any st' = version_installed any st) ∧
    _system_data st' = _system_data st.
Proof.
  intros Huser Hsystem Hbase. eexists _, _. split.
  { unfold set_options. run_all. rewrite (getitem_Some _ _ _ Huser). cbn.
    reflexivity. }
  unfold get_boot, get_options, version_installed, deepcopy. cbn.
  split.
  { rewrite (getitem_Some _ _ _ Hsystem). cbn.
    rewrite (getitem_Some _ _ _ Hbase). cbn.
    rewrite getitem_insert_eq. cbn. by rewrite getitem_insert_eq. }
  split.
  { intros other Hother. by rewrite getitem_insert_ne. }
  split; [|split; [|done]].
  - intros any. destruct (decide (any = addon)) as [->|Hany].
    + rewrite getitem_insert_eq, (getitem_Some _ _ _ Huser). cbn.
      by rewrite lookup_insert_ne.
    + by rewrite getitem_insert_ne.
  - intros any. destruct (decide (any = addon)) as [->|Hany].
    + rewrite lookup_insert_eq, Huser. cbn. unfold dict_get.
      by rewrite lookup_insert_ne.
    + by rewrite lookup_insert_ne.
Qed.

(** A new port over the defaults of the definition. *)
Lemma set_options_then_get_options_witness :
  let system : dict :=
    {[ ATTR_OPTIONS := VDict {[ "port" := VInt 80; "ssl" := VBool false ]} ]} in
  let user : dict := {[ ATTR_OPTIONS := VDict ∅; ATTR_VERSION := VStr "1" ]} in
  let st := mkAddonsData {[ "local_bar" := system ]} {[ "local_bar" := user ]}
              ∅ ∅ VNone in
  ∃ st' saves,
    set_options "local_bar" (VDict {[ "port" := VInt 8080 ]}) st
      = (Ret (), st', saves) ∧
    get_options "local_bar" st'
      = Ret ({[ "port" := VInt 8080 ]}
             ∪ {[ "port" := VInt 80; "ssl" := VBool false ]}).
Proof.
  intros system user st.
  destruct (set_options_then_get_options st "local_bar"
              {[ "port" := VInt 8080 ]} user system
              {[ "port" := VInt 80; "ssl" := VBool false ]})
    as (st' & saves & Hrun & Hoptions & _); [reflexivity..|].
  by exists st', saves.
Defined.

(** X8.  [set_options] and [set_boot] on a slug without a user half raise
    [KeyError] out of the lookup of the user half; the object is unchanged
    and nothing is saved, whether or not the slug has a system half. *)
Theorem overrides_need_user_half st addon options boot :
  _user_data st !! addon = None →
  set_options addon options st = (Raise KeyError, st, []) ∧
  set_boot addon boot st = (Raise KeyError, st, []).
Proof.
  intros Huser. unfold set_options, set_boot.
  split; run_all; by rewrite (getitem_None _ _ Huser).
Qed.

(** A system half that lost its user half. *)
Lemma overrides_need_user_half_witness :
  let st := mkAddonsData {[ "local_bar" := {[ ATTR_BOOT := VStr "auto" ]} ]}
              ∅ ∅ ∅ VNone in
  set_options "local_bar" (VDict ∅) st = (Raise KeyError, st, []) ∧
  set_boot "local_bar" (VStr "manual") st = (Raise KeyError, st, []).
Proof.
  intros st.
  apply (overrides_need_user_half st "local_bar" (VDict ∅) (VStr "manual")).
  reflexivity.
Defined.

(** ** More on the merge of catalog changes *)

Lemma merge_step_frame st addon have_change :
  (merge_step addon have_change st).2 = [] ∧
  merge_frame st (merge_step addon have_change st).1.2.
Proof.
  unfold merge_step, merge_frame. run_all.
  destruct (_addons_cache st !! addon) as [cache|] eqn:Hcache;
    [|by repeat split].
  unfold getitem.
  destruct (_system_data st !! addon) as [data|] eqn:Hdata;
    [|by repeat split].
  cbn. destruct (data !! ATTR_VERSION) as [dv|]; [|by repeat split].
  cbn. destruct (cache !! ATTR_VERSION) as [cv|]; [|by repeat split].
  cbn. destruct (py_eq dv cv); [|by repeat split].
  destruct (py_eq (VDict data) (VDict cache)); cbn; [by repeat split|].
  repeat split; try done.
  - apply dom_insert_lookup_L. by eexists.
  - intros other Hother. rewrite lookup_insert_ne; [done|].
    intros ->. congruence.
Qed.

Lemma merge_frame_trans st1 st2 st3 :
  merge_frame st1 st2 → merge_frame st2 st3 → merge_frame st1 st3.
Proof.
  intros (Hu & Hc & Hr & Ha & Hd & Hs) (Hu' & Hc' & Hr' & Ha' & Hd' & Hs').
  repeat split; try congruence.
  intros addon Hnone. rewrite Hs'; [by apply Hs|]. by rewrite Hc.
Qed.

Lemma merge_loop_frame order st have_change :
  (merge_loop order have_change st).2 = [] ∧
  merge_frame st (merge_loop order have_change st).1.2.
Proof.
  revert st have_change. induction order as [|addon order IH];
    intros st have_change; [by repeat split|].
  cbn [merge_loop]. unfold mbind, M_bind.
  destruct (merge_step_frame st addon have_change) as [Ht Hframe].
  destruct (merge_step addon have_change st) as [[[hc|e|] st1] t1];
    cbn in Ht, Hframe; subst t1; [|done..].
  destruct (IH st1 hc) as [Ht' Hframe'].
  destruct (merge_loop order hc st1) as [[r st2] t2]. cbn in *.
  split; [done|]. by apply (merge_frame_trans st st1 st2).
Qed.

(** X9.  Whatever the object holds and in whatever order the loop runs,
    even when it is cut short by a definition without a version,
    [merge_update_config] leaves the user halves, the catalog, the
    repository records and the architecture alone, installs and uninstalls
    nothing, and does not touch a detached addon; and when it raises,
    nothing has been saved, whatever it had overwritten by then. *)
Theorem merge_update_config_frame st order :
  merge_frame st (merge_update_config order st).1.2 ∧
  ((merge_update_config order st).1.1 ≠ Ret () →
   (merge_update_config order st).2 = []).
Proof.
  unfold merge_update_config, mbind, M_bind.
  destruct (merge_loop_frame order st false) as [Ht Hframe].
  destruct (merge_loop order false st) as [[[hc|e|] st1] t1];
    cbn in Ht, Hframe; subst t1; [|done..].
  destruct hc; cbn; split; done.
Qed.

Lemma merge_due_after_merge st st' (order : list string) :
  _addons_cache st' = _addons_cache st →
  (∀ addon, addon ∈ order ↔ is_Some (_system_data st !! addon)) →
  (∀ addon, _system_data st' !! addon =
     if bool_decide (addon ∈ order) && merge_due st addon
     then _addons_cache st !! addon
     else _system_data st !! addon) →
  ∀ addon, merge_due st' addon = false.
Proof.
  intros Hcache Hin Hsys addon. unfold merge_due at 1.
  rewrite Hcache, Hsys.
  destruct (_addons_cache st !! addon) as [cache|] eqn:Hc; [|done].
  destruct (bool_decide (addon ∈ order) && merge_due st addon) eqn:Hdue.
  - destruct (cache !! ATTR_VERSION); [|done].
    by rewrite !py_eq_refl.
  - apply andb_false_iff in Hdue as [Hout|Hdue].
    + apply bool_decide_eq_false in Hout.
      destruct (_system_data st !! addon) eqn:Hdata; [|done].
      exfalso. apply Hout, Hin. by eexists.
    + unfold merge_due in Hdue. by rewrite Hc in Hdue.
Qed.

Lemma existsb_none {A} (f : A → bool) (l : list A) :
  (∀ a, f a = false) → existsb f l = false.
Proof.
  intros Hf. induction l as [|x l IH]; [done|]. cbn. by rewrite Hf, IH.
Qed.

(** X10.  A second [merge_update_config] right after a first one, over
    definitions that carry their versions, finds nothing to merge: it
    changes nothing and saves nothing. *)
Theorem merge_update_config_twice st order :
  order ≡ₚ elements (list_installed st) →
  versioned st →
  ∃ st' saves,
    merge_update_config order st = (Ret (), st', saves) ∧
    ∀ order', order' ≡ₚ elements (list_installed st') →
      merge_update_config order' st' = (Ret (), st', []).
Proof.
  intros Horder Hversioned.
  assert (Hin : ∀ addon, addon ∈ order ↔ is_Some (_system_data st !! addon)).
  { intros addon. rewrite Horder. unfold list_installed.
    by rewrite elem_of_elements, elem_of_dom. }
  destruct (merge_loop_run order) with (st := st) (have_change := false)
    as (st' & Hrun & Huser & Hcache & Hrepos & Harch & Hsys);
    [rewrite Horder; apply NoDup_elements|by intros addon ?%Hin|done|].
  assert (Hversioned' : versioned st').
  { intros addon data cache Hdata Hc. rewrite Hcache in Hc.
    rewrite Hsys in Hdata.
    destruct (bool_decide (addon ∈ order) && merge_due st addon) eqn:Hdue.
    - rewrite Hc in Hdata. injection Hdata as <-.
      apply andb_true_iff in Hdue as [_ Hdue].
      unfold merge_due in Hdue. rewrite Hc in Hdue.
      destruct (_system_data st !! addon) as [data0|]; [|done].
      destruct (data0 !! ATTR_VERSION); [|done].
      destruct (cache !! ATTR_VERSION); [|done]. by split; eexists.
    - by apply (Hversioned addon). }
  pose proof (merge_due_after_merge st st' order Hcache Hin Hsys) as Hnone.
  assert (Hfirst : ∃ saves,
            merge_update_config order st = (Ret (), st', saves)).
  { unfold merge_update_config. rewrite (bind_ret _ _ _ _ _ _ Hrun).
    destruct (false || existsb (merge_due st) order); by eexists. }
  destruct Hfirst as [saves Hfirst]. exists st', saves. split; [done|].
  intros order' Horder'.
  destruct (merge_loop_run order') with (st := st') (have_change := false)
    as (st'' & Hrun' & Huser' & Hcache' & Hrepos' & Harch' & Hsys').
  { rewrite Horder'. apply NoDup_elements. }
  { intros addon. rewrite Horder'. unfold list_installed.
    by rewrite elem_of_elements, elem_of_dom. }
  { done. }
  rewrite (existsb_none _ _ Hnone) in Hrun'. cbn in Hrun'.
  assert (st'' = st') as ->.
  { assert (_system_data st'' = _system_data st') as Hsame.
    { apply map_eq. intros addon. rewrite Hsys', Hnone.
      by rewrite andb_false_r. }
    destruct st', st''. cbn in *. congruence. }
  unfold merge_update_config. by rewrite (bind_ret _ _ _ _ _ _ Hrun').
Qed.

(** The correction of the name is merged by the first run only. *)
Lemma merge_update_config_twice_witness :
  let system : dict := {[ ATTR_VERSION := VStr "1"; ATTR_NAME := VStr "Bar" ]} in
  let cache : dict := {[ ATTR_VERSION := VStr "1"; ATTR_NAME := VStr "Baz" ]} in
  let st := mkAddonsData {[ "local_bar" := system ]} ∅
              {[ "local_bar" := cache ]} ∅ VNone in
  ∃ st' saves,
    merge_update_config (elements (list_installed st)) st
      = (Ret (), st', saves) ∧
    merge_update_config (elements (list_installed st')) st'
      = (Ret (), st', []).
Proof.
  intros system cache st.
  destruct (merge_update_config_twice st (elements (list_installed st)))
    as (st' & saves & Hrun & Hagain).
  - reflexivity.
  - intros addon data entry Hdata Hentry. cbn in Hdata, Hentry.
    apply lookup_singleton_Some in Hdata as [<- <-].
    apply lookup_singleton_Some in Hentry as [_ <-].
    split; eexists; reflexivity.
  - exists st', saves. split; [exact Hrun|]. by apply Hagain.
Defined.

(** ** Addons to start *)

Lemma startup_item st addon :
  (system ← getitem (_system_data st) addon; getitem system ATTR_STARTUP)
    = match startup_of addon st with
      | Some startup => Ret startup
      | None => Raise KeyError
      end.
Proof.
  unfold startup_of, getitem.
  destruct (_system_data st !! addon) as [system|]; [|done]. cbn.
  by destruct (system !! ATTR_STARTUP).
Qed.

Lemma startup_loop_run start_type st order :
  (∀ addon, addon ∈ order → ∃ boot, get_boot addon st = Ret boot) →
  ∀ addon_list, ∃ started orphaned,
    startup_loop start_type st order addon_list = (Ret started, orphaned) ∧
    (∀ addon, addon ∈ started ↔
       addon ∈ addon_list ∨
       addon ∈ order ∧ boots_auto addon st = true ∧
       ∃ startup, startup_of addon st = Some startup ∧
                  py_eq startup start_type = true) ∧
    (∀ addon, addon ∈ orphaned ↔
       addon ∈ order ∧ boots_auto addon st = true ∧
       startup_of addon st = None).
Proof.
  induction order as [|a order IH]; intros Hboot addon_list.
  - exists addon_list, []. split; [done|]. split; intros addon.
    + split; [by left|]. intros [?|[Hin _]]; [done|].
      by apply elem_of_nil in Hin.
    + split; [by intros ?%elem_of_nil|]. intros [Hin _].
      by apply elem_of_nil in Hin.
  - destruct (Hboot a) as [boot Ha]; [apply list_elem_of_here|].
    assert (Hrest : ∀ addon, addon ∈ order →
              ∃ boot, get_boot addon st = Ret boot).
    { intros addon Hin. apply Hboot. by apply list_elem_of_further. }
    assert (Hauto : boots_auto a st = py_eq boot (VStr BOOT_AUTO)).
    { unfold boots_auto. by rewrite Ha. }
    cbn [startup_loop]. rewrite Ha, startup_item.
    destruct (py_eq boot (VStr BOOT_AUTO)) eqn:Hpy; cbn [negb].
    + destruct (startup_of a st) as [startup|] eqn:Hstartup.
      * destruct (IH Hrest (if py_eq startup start_type
                             then {[ a ]} ∪ addon_list else addon_list))
          as (started & orphaned & -> & Hstarted & Horphaned).
        exists started, orphaned. split; [done|]. split; intros addon.
        -- rewrite Hstarted, elem_of_cons. split.
           ++ intros [Hin|(Hin & Hb & Hs)]; [|by right; split; [right|]].
              destruct (py_eq startup start_type) eqn:Heq; [|by left].
              apply elem_of_union in Hin as [->%elem_of_singleton|Hin];
                [|by left].
              right. split; [by left|]. split; [congruence|]. by eexists.
           ++ intros [Hin|([->|Hin] & Hb & s & Hs & Heq)].
              ** left. destruct (py_eq startup start_type); [|done].
                 apply elem_of_union. by right.
              ** left. rewrite Hstartup in Hs. injection Hs as ->.
                 rewrite Heq. apply elem_of_union. left.
                 by apply elem_of_singleton.
              ** right. split; [done|]. split; [done|]. by eexists.
        -- rewrite Horphaned, elem_of_cons. split.
           ++ intros (Hin & Hb & Hs). by split; [right|].
           ++ intros ([->|Hin] & Hb & Hs); [congruence|done].
      * destruct (IH Hrest addon_list)
          as (started & orphaned & -> & Hstarted & Horphaned).
        exists started, (a :: orphaned). split; [done|]. split; intros addon.
        -- rewrite Hstarted, elem_of_cons. split.
           ++ intros [Hin|(Hin & Hb & Hs)]; [by left|].
              by right; split; [right|].
           ++ intros [Hin|([->|Hin] & Hb & s & Hs & Heq)]; [by left|..].
              ** congruence.
              ** right. split; [done|]. split; [done|]. by eexists.
        -- rewrite !elem_of_cons, Horphaned. split.
           ++ intros [->|(Hin & Hb & Hs)]; [|by split; [right|]].
              split; [by left|]. split; [congruence|done].
           ++ intros ([->|Hin] & Hb & Hs); [by left|by right].
    + destruct (IH Hrest addon_list)
        as (started & orphaned & -> & Hstarted & Horphaned).
      exists started, orphaned. split; [done|]. split; intros addon.
      * rewrite Hstarted, elem_of_cons. split.
        -- intros [Hin|(Hin & Hb & Hs)]; [by left|].
           by right; split; [right|].
        -- intros [Hin|([->|Hin] & Hb & Hs)]; [by left|congruence|].
           by right.
      * rewrite Horphaned, elem_of_cons. split.
        -- intros (Hin & Hb & Hs). by split; [right|].
        -- intros ([->|Hin] & Hb & Hs); [congruence|done].
Qed.

(** X11.  When every installed addon has a boot policy to read (a boot
    override, or a user half and a default), [list_startup] returns: its
    result is the set of installed addons whose policy is "auto" and whose
    system half declares the startup class asked for, and it logs as
    orphaned exactly the addons with policy "auto" whose system half
    declares no startup class. *)
Theorem list_startup_selects st order start_type :
  (∀ addon, addon ∈ order → ∃ boot, get_boot addon st = Ret boot) →
  ∃ started orphaned,
    list_startup order start_type st = (Ret started, orphaned) ∧
    (∀ addon, addon ∈ started ↔
       addon ∈ order ∧ boots_auto addon st = true ∧
       ∃ startup, startup_of addon st = Some startup ∧
                  py_eq startup start_type = true) ∧
    (∀ addon, addon ∈ orphaned ↔
       addon ∈ order ∧ boots_auto addon st = true ∧
       startup_of addon st = None).
Proof.
  intros Hboot.
  destruct (startup_loop_run start_type st order Hboot ∅)
    as (started & orphaned & Hrun & Hstarted & Horphaned).
  exists started, orphaned. split; [done|]. split; [|done].
  intros addon. rewrite Hstarted. split; [|by right].
  intros [Hin|?]; [|done]. by apply not_elem_of_empty in Hin.
Qed.

(** Three installed addons: one to start at "before", one set to manual,
    one without a startup class. *)
Lemma list_startup_selects_witness :
  let user : dict := {[ ATTR_OPTIONS := VDict ∅; ATTR_VERSION := VStr "1" ]} in
  let st := mkAddonsData
    {[ "core_ssh" := {[ ATTR_BOOT := VStr "auto";
                        ATTR_STARTUP := VStr "before" ]};
       "core_web" := {[ ATTR_BOOT := VStr "auto";
                        ATTR_STARTUP := VStr "before" ]};
       "local_old" := {[ ATTR_BOOT := VStr "auto" ]} ]}
    {[ "core_ssh" := user;
       "core_web" := <[ATTR_BOOT := VStr "manual"]> user;
       "local_old" := user ]}
    ∅ ∅ VNone in
  ∃ started orphaned,
    list_startup ["core_ssh"; "core_web"; "local_old"] (VStr "before") st
      = (Ret started, orphaned) ∧
    "core_ssh" ∈ started ∧ ("core_web" ∉ started) ∧
    ("local_old" ∉ started) ∧
    "local_old" ∈ orphaned ∧ ("core_ssh" ∉ orphaned).
Proof.
  intros user st.
  destruct (list_startup_selects st ["core_ssh"; "core_web"; "local_old"]
              (VStr "before"))
    as (started & orphaned & Hrun & Hstarted & Horphaned).
  - intros addon Hin.
    repeat (apply elem_of_cons in Hin as [->|Hin]; [by eexists|]).
    by apply elem_of_nil in Hin.
  - exists started, orphaned. split; [exact Hrun|].
    split; [|split; [|split; [|split]]].
    + apply Hstarted. split; [apply list_elem_of_here|].
      split; [reflexivity|]. by eexists.
    + intros (_ & Hauto & _)%Hstarted. vm_compute in Hauto. discriminate.
    + intros (_ & _ & startup & Hstartup & _)%Hstarted.
      vm_compute in Hstartup. discriminate.
    + apply Horphaned. split; [|split; reflexivity].
      do 2 apply list_elem_of_further. apply list_elem_of_here.
    + intros (_ & _ & Hstartup)%Horphaned. vm_compute in Hstartup.
      discriminate.
Defined.

Lemma startup_loop_missing_user_half start_type st pre addon post :
  (∀ a, a ∈ pre → ∃ boot, get_boot a st = Ret boot) →
  _user_data st !! addon = None →
  ∀ addon_list,
    (startup_loop start_type st (pre ++ addon :: post) addon_list).1
      = Raise KeyError.
Proof.
  intros Hpre Huser. induction pre as [|a pre IH]; intros addon_list.
  - cbn. unfold get_boot. by rewrite (getitem_None _ _ Huser).
  - destruct (Hpre a) as [boot Ha]; [apply list_elem_of_here|].
    assert (Hrest : ∀ a', a' ∈ pre → ∃ boot, get_boot a' st = Ret boot).
    { intros a' Hin. apply Hpre. by apply list_elem_of_further. }
    cbn [app startup_loop]. rewrite Ha, startup_item.
    destruct (negb (py_eq boot (VStr BOOT_AUTO))); [by apply IH|].
    destruct (startup_of a st); [by apply IH|].
    specialize (IH Hrest addon_list).
    by destruct (startup_loop start_type st (pre ++ addon :: post) addon_list).
Qed.

(** X12.  The guard of [list_startup] against orphaned addons covers a
    missing startup class only: an installed addon without a user half (and
    so without a boot policy to read) makes [list_startup] raise
    [KeyError], whatever the other addons are. *)
Theorem list_startup_missing_user_half st pre addon post start_type :
  (∀ a, a ∈ pre → ∃ boot, get_boot a st = Ret boot) →
  _user_data st !! addon = None →
  (list_startup (pre ++ addon :: post) start_type st).1 = Raise KeyError.
Proof.
  intros Hpre Huser. by apply startup_loop_missing_user_half.
Qed.

(** A system half whose user half is gone, after a sound addon. *)
Lemma list_startup_missing_user_half_witness :
  let system : dict :=
    {[ ATTR_BOOT := VStr "auto"; ATTR_STARTUP := VStr "before" ]} in
  let user : dict := {[ ATTR_OPTIONS := VDict ∅; ATTR_VERSION := VStr "1" ]} in
  let st := mkAddonsData {[ "core_ssh" := system; "local_old" := system ]}
              {[ "core_ssh" := user ]} ∅ ∅ VNone in
  (list_startup ["core_ssh"; "local_old"] (VStr "before") st).1
    = Raise KeyError.
Proof.
  intros system user st.
  apply (list_startup_missing_user_half st ["core_ssh"] "local_old" []).
  - intros a Hin. apply elem_of_cons in Hin as [->|Hin]; [by eexists|].
    by apply elem_of_nil in Hin.
  - reflexivity.
Defined.

(** ** Volume mappings that do not match *)

Section VolumesEdge.

Variable RE_VOLUME : string → option (string * option string).

Lemma volume_loop_prefix pre rest volumes :
  Forall (λ s, is_Some (RE_VOLUME s)) pre →
  ∃ volumes',
    volume_loop RE_VOLUME ((VStr <$> pre) ++ rest) volumes
      = volume_loop RE_VOLUME rest volumes'.
Proof.
  intros Hpre. revert volumes.
  induction Hpre as [|s pre [[path mode] Hs] _ IH]; intros volumes.
  - by exists volumes.
  - cbn. rewrite Hs. cbn. apply IH.
Qed.

(** X13.  [map_volumes] relies on the schema for the shape of the
    directives: at the first directive that the pattern does not match it
    raises [AttributeError] (the match is [None]), and at the first one
    that is not a string [TypeError], whatever follows. *)
Theorem map_volumes_unmatched st addon system pre bad post :
  _system_data st !! addon = Some system →
  system !! ATTR_MAP = Some (VList ((VStr <$> pre) ++ bad :: post)) →
  Forall (λ s, is_Some (RE_VOLUME s)) pre →
  (∀ s, bad = VStr s → RE_VOLUME s = None) →
  map_volumes RE_VOLUME addon st =
    Raise (match bad with
           | VStr _ => AttributeError
           | _ => TypeError
           end).
Proof.
  intros Hsystem Hmap Hpre Hbad. unfold map_volumes.
  rewrite (getitem_Some _ _ _ Hsystem). cbn.
  rewrite (getitem_Some _ _ _ Hmap). cbn.
  destruct (volume_loop_prefix pre (bad :: post) ∅ Hpre) as [v ->].
  destruct bad as [| | |s| |]; cbn; try done.
  by rewrite (Hbad s).
Qed.

End VolumesEdge.

(** A directive that ends in a colon, after a sound one. *)
Lemma map_volumes_unmatched_witness :
  let st := mkAddonsData
    {[ "local_bar" :=
         {[ ATTR_MAP := VList [VStr "/share:rw"; VStr "/data:"] ]} ]}
    ∅ ∅ ∅ VNone in
  map_volumes directive_match "local_bar" st = Raise AttributeError.
Proof.
  intros st.
  rewrite (map_volumes_unmatched directive_match st "local_bar"
             {[ ATTR_MAP := VList [VStr "/share:rw"; VStr "/data:"] ]}
             ["/share:rw"] (VStr "/data:") []);
    [reflexivity..| |].
  - repeat constructor. by eexists.
  - by intros s [= <-].
Defined.

(** ** Unknown addons *)

(** X14.  On a slug that [exists_addon] does not know, one that is
    neither installed nor in the catalog, [get_image] and [need_build]
    raise [TypeError] (the membership test on [None]), not [KeyError]; and
    [need_build] raises nothing else and on no other slug. *)
Theorem unknown_addon_TypeError st addon :
  (exists_addon addon st = false →
   get_image addon st = Raise TypeError ∧
   need_build addon st = Raise TypeError) ∧
  (exists_addon addon st = true →
   ∃ build, need_build addon st = Ret build).
Proof.
  assert (Hdata : exists_addon addon st = false ↔ addon_data addon st = None).
  { unfold exists_addon, addon_data. rewrite orb_false_iff.
    rewrite !bool_decide_eq_false.
    destruct (_system_data st !! addon), (_addons_cache st !! addon);
      split; try done.
    all: try (intros [H1 H2]; exfalso;
              first [apply H1; by eexists|apply H2; by eexists]). }
  assert (Hknown : exists_addon addon st = true ↔
            is_Some (addon_data addon st)).
  { rewrite <- not_eq_None_Some, <- Hdata. by destruct (exists_addon addon st). }
  unfold need_build, get_image. split.
  - intros Hunknown%Hdata. by rewrite Hunknown.
  - intros [data Hsome]%Hknown. rewrite Hsome. by eexists.
Qed.

(** * Further properties of the scan *)

Lemma bind_ext {A B} (m : M A) (f g : A → M B) st :
  (∀ a st1, f a st1 = g a st1) → (m ≫= f) st = (m ≫= g) st.
Proof.
  intros Hfg. unfold mbind, M_bind.
  destruct (m st) as [[[a|e|] st1] t1]; [by rewrite Hfg|done..].
Qed.

Lemma for_each_snoc {A} (body : A → M unit) l x st st1 t1 :
  for_each body l st = (Ret (), st1, t1) →
  for_each body (l ++ [x]) st
    = let '(r, st2, t2) := body x st1 in (r, st2, t1 ++ t2).
Proof.
  revert st t1. induction l as [|y l IH]; intros st t1 Hrun.
  - cbn in Hrun. injection Hrun as <- <-. cbn [app]. rewrite for_each_cons.
    unfold mbind, M_bind. destruct (body x st) as [[[[]|e|] st2] t2]; cbn.
    + by rewrite app_nil_r.
    + done.
    + done.
  - cbn [app]. rewrite for_each_cons in *. unfold mbind, M_bind in *.
    destruct (body y st) as [[[[]|e|] st0] t0]; [|done..].
    destruct (for_each body l st0) as [[r st2] t2] eqn:Hrest.
    injection Hrun as -> -> <-.
    rewrite (IH _ _ Hrest).
    destruct (body x st1) as [[r' st3] t3]. by rewrite app_assoc.
Qed.

(** A loop that meets an element on which its body raises ends there: what
    follows the element does not matter. *)
Lemma for_each_abort {A} (body : A → M unit) pre bad e :
  (∀ st, body bad st = (Raise e, st, [])) →
  ∀ post st,
    (for_each body (pre ++ bad :: post) st).1.1 ≠ Ret () ∧
    for_each body (pre ++ bad :: post) st
      = for_each body (pre ++ [bad]) st.
Proof.
  intros Hbad post. induction pre as [|x pre IH]; intros st.
  - cbn [app]. rewrite !for_each_cons. unfold mbind, M_bind.
    by rewrite Hbad.
  - cbn [app]. rewrite !for_each_cons. unfold mbind, M_bind.
    destruct (body x st) as [[[[]|e'|] st1] t1]; [|done..].
    destruct (IH st1) as [Hne Heq]. rewrite Heq in *.
    destruct (for_each body (pre ++ [bad]) st1) as [[r st2] t2]. done.
Qed.

Lemma for_each_noop {A} (body : A → M unit) pre x post :
  (∀ st, body x st = (Ret (), st, [])) →
  ∀ st, for_each body (pre ++ x :: post) st = for_each body (pre ++ post) st.
Proof.
  intros Hx. induction pre as [|y pre IH]; intros st.
  - cbn [app]. rewrite for_each_cons. unfold mbind, M_bind. rewrite Hx.
    by destruct (for_each body post st) as [[r st2] t2].
  - cbn [app]. rewrite !for_each_cons. apply bind_ext. intros _ st1. apply IH.
Qed.

Section ScanFolder.

Variable SCHEMA_ADDON_CONFIG : value → option dict.
Variable SCHEMA_REPOSITORY_CONFIG : value → option dict.
Variable extract_hash_from_path : string → string.

Lemma read_addon_unusable repository addon st :
  addon_config_unusable SCHEMA_ADDON_CONFIG addon →
  read_addon SCHEMA_ADDON_CONFIG repository addon st
    = (Ret (), st, [EvWarning (addon_warning addon)]).
Proof.
  unfold addon_config_unusable, addon_warning, read_addon, try_except,
    validate.
  intros [Hread|[Hread|(v & Hread & Hschema)]]; rewrite Hread; run_all.
  - reflexivity.
  - reflexivity.
  - rewrite Hschema. reflexivity.
Qed.

(** X15.  A definition file that is missing, cannot be read or fails the
    addon schema costs one warning and nothing else: the folder is read to
    the same outcome and the same object as without that file, the log
    being the one of that run with the warning added (the same log only if
    an exception ended the run before it reached the file). *)
Theorem unusable_config_skipped repository pre bad post st :
  addon_config_unusable SCHEMA_ADDON_CONFIG bad →
  let folder configs :=
    _read_addons_folder SCHEMA_ADDON_CONFIG configs repository st in
  (folder (pre ++ bad :: post)).1.1 = (folder (pre ++ post)).1.1 ∧
  (folder (pre ++ bad :: post)).1.2 = (folder (pre ++ post)).1.2 ∧
  (warning_added (addon_warning bad)
     (folder (pre ++ bad :: post)).2 (folder (pre ++ post)).2
   ∨ ((folder (pre ++ bad :: post)).1.1 ≠ Ret () ∧
      (folder (pre ++ bad :: post)).2 = (folder (pre ++ post)).2)).
Proof.
  intros Hbad folder.
  assert (Hdiffer : differ_by_warning (addon_warning bad)
            (folder (pre ++ bad :: post)) (folder (pre ++ post)));
    [|exact Hdiffer].
  subst folder. unfold _read_addons_folder. apply for_each_skip.
  intros st'. by apply read_addon_unusable.
Qed.

(** X16.  A definition file whose text is not JSON is not skipped: the
    decode error leaves [_read_addons_folder], which does not return, and
    the files after it are not read. *)
Theorem undecodable_config_aborts repository pre bad post st :
  file_json bad = NotJson →
  let folder configs :=
    _read_addons_folder SCHEMA_ADDON_CONFIG configs repository st in
  (folder (pre ++ bad :: post)).1.1 ≠ Ret () ∧
  folder (pre ++ bad :: post) = folder (pre ++ [bad]).
Proof.
  intros Hbad folder. subst folder. unfold _read_addons_folder.
  apply (for_each_abort _ _ _ JSONDecodeError).
  intros st'. unfold read_addon, try_except. rewrite Hbad. reflexivity.
Qed.

Lemma read_addon_valid repository addon config slug st :
  addon_config_valid SCHEMA_ADDON_CONFIG addon config slug →
  read_addon SCHEMA_ADDON_CONFIG repository addon st
    = (Ret (),
       with_addons_cache
         <[catalog_key repository slug
             := catalog_entry repository (file_parent addon) config]> st,
       []).
Proof.
  intros (v & Hread & Hschema & Hslug).
  unfold read_addon, try_except, validate. rewrite Hread. run_all.
  rewrite Hschema. run_all. rewrite (getitem_Some _ _ _ Hslug). reflexivity.
Qed.

(** X17.  A definition file that passes the schema is filed under
    [<repository>_<slug>], with the repository tag and the folder of the
    file written over whatever the definition said of them and its other
    fields as validated; it takes the place of an entry an earlier file of
    the folder has put under that key, and the other keys stay. *)
Theorem valid_config_stored repository pre addon config slug st st1 t1 :
  _read_addons_folder SCHEMA_ADDON_CONFIG pre repository st
    = (Ret (), st1, t1) →
  addon_config_valid SCHEMA_ADDON_CONFIG addon config slug →
  ∃ st' entry,
    _read_addons_folder SCHEMA_ADDON_CONFIG (pre ++ [addon]) repository st
      = (Ret (), st', t1) ∧
    _addons_cache st' !! catalog_key repository slug = Some entry ∧
    entry !! ATTR_REPOSITORY = Some (VStr repository) ∧
    entry !! ATTR_LOCATON = Some (VStr (file_parent addon)) ∧
    (∀ key, key ≠ ATTR_REPOSITORY → key ≠ ATTR_LOCATON →
       entry !! key = config !! key) ∧
    (∀ other, other ≠ catalog_key repository slug →
       _addons_cache st' !! other = _addons_cache st1 !! other).
Proof.
  intros Hpre Hvalid. unfold _read_addons_folder in *.
  eexists _, _. split.
  { rewrite (for_each_snoc _ _ _ _ _ _ Hpre).
    rewrite (read_addon_valid _ _ _ _ _ Hvalid). by rewrite app_nil_r. }
  cbn. split; [apply lookup_insert_eq|]. unfold catalog_entry.
  split; [by rewrite lookup_insert_ne, lookup_insert_eq|].
  split; [by rewrite lookup_insert_eq|].
  split; [intros key Hr Hl; by rewrite !lookup_insert_ne|].
  intros other Hother. by rewrite lookup_insert_ne.
Qed.

(** X18.  An entry of the directory of git repositories that is not a
    directory is passed over in silence: the scan runs as if it were not
    there. *)
Theorem plain_file_among_repositories fs pre entry post st :
  path_addons_git fs = pre ++ entry :: post →
  element_is_dir entry = false →
  read_data_from_repositories SCHEMA_ADDON_CONFIG SCHEMA_REPOSITORY_CONFIG
    extract_hash_from_path fs st
  = read_data_from_repositories SCHEMA_ADDON_CONFIG SCHEMA_REPOSITORY_CONFIG
      extract_hash_from_path
      (mkFilesystem (path_addons_core fs) (path_addons_local fs)
         (pre ++ post) (builtin_json fs)) st.
Proof.
  intros Hgit Hdir. unfold read_data_from_repositories. rewrite Hgit. cbn.
  do 5 (apply bind_ext; intros _ ?).
  apply for_each_noop. intros st'. unfold read_git_element.
  by rewrite Hdir.
Qed.

End ScanFolder.

(** ** What the scan keeps *)

Lemma maintains_bind {A B} P (m : M A) (f : A → M B) :
  maintains P m → (∀ a, maintains P (f a)) → maintains P (m ≫= f).
Proof.
  intros Hm Hf st HP. unfold mbind, M_bind.
  destruct (Hm st HP) as [HP1 Ht1].
  destruct (m st) as [[[a|e|] st1] t1]; cbn in *; [|done..].
  destruct (Hf a st1 HP1) as [HP2 Ht2].
  destruct (f a st1) as [[r st2] t2]. cbn in *.
  split; [done|]. by apply Forall_app.
Qed.

Lemma maintains_lift_bind {A B} P (o : outcome A) (f : A → M B) :
  (∀ a, o = Ret a → maintains P (f a)) → maintains P (lift o ≫= f).
Proof.
  intros Hf st HP. unfold mbind, M_bind, lift.
  destruct o as [a|e|]; cbn; [|done..].
  destruct (Hf a eq_refl st HP) as [HP2 Ht2].
  by destruct (f a st) as [[r st2] t2].
Qed.

Lemma maintains_ret {A} P (a : A) : maintains P (mret a).
Proof. by intros st HP. Qed.

Lemma maintains_lift {A} P (o : outcome A) : maintains P (lift o).
Proof. by intros st HP. Qed.

Lemma maintains_warning P w : maintains P (emit (EvWarning w)).
Proof. intros st HP. split; [done|]. by repeat constructor. Qed.

Lemma maintains_update P f :
  (∀ st, P st → P (f st)) → maintains P (update_self f).
Proof. intros Hf st HP. split; [by apply Hf|]. constructor. Qed.

Lemma maintains_try_except {A} P (body : M A) caught handler :
  maintains P body → (∀ e, maintains P (handler e)) →
  maintains P (try_except body caught handler).
Proof.
  intros Hbody Hhandler st HP. unfold try_except.
  destruct (Hbody st HP) as [HP1 Ht1].
  destruct (body st) as [[[a|e|] st1] t1]; cbn in *; [done| |done].
  destruct (bool_decide (e ∈ caught)); [|done].
  destruct (Hhandler e st1 HP1) as [HP2 Ht2].
  destruct (handler e st1) as [[r st2] t2]. cbn in *.
  split; [done|]. by apply Forall_app.
Qed.

Lemma maintains_for_each {A} P (body : A → M unit) l :
  (∀ x, maintains P (body x)) → maintains P (for_each body l).
Proof.
  intros Hbody. induction l as [|x l IH]; [apply maintains_ret|].
  rewrite for_each_cons. apply maintains_bind; [apply Hbody|done].
Qed.

Lemma catalog_entry_slug repository location config :
  catalog_entry repository location config !! ATTR_SLUG
    = config !! ATTR_SLUG.
Proof. unfold catalog_entry. by rewrite !lookup_insert_ne. Qed.

Section ScanKeeps.

Variable SCHEMA_ADDON_CONFIG : value → option dict.
Variable SCHEMA_REPOSITORY_CONFIG : value → option dict.
Variable extract_hash_from_path : string → string.

Variable P : AddonsData → Prop.
Hypothesis P_stable : scan_stable P.

Lemma maintains_validate schema v : maintains P (validate schema v).
Proof.
  unfold validate. destruct (schema v); [apply maintains_ret|].
  apply maintains_lift.
Qed.

Lemma maintains_read_addon repository addon :
  maintains P (read_addon SCHEMA_ADDON_CONFIG repository addon).
Proof.
  unfold read_addon. apply maintains_try_except.
  - apply maintains_lift_bind. intros v _.
    apply maintains_bind; [apply maintains_validate|]. intros config.
    apply maintains_lift_bind. intros slug Hslug.
    apply maintains_lift_bind. intros s Hs.
    apply maintains_update. intros st HP.
    apply (proj1 P_stable st repository _ config slug s HP); [|done].
    unfold getitem in Hslug.
    destruct (config !! ATTR_SLUG); by simplify_eq.
  - intros e. destruct (decide (e = OSError)); apply maintains_warning.
Qed.

Lemma maintains_read_addons_folder configs repository :
  maintains P (_read_addons_folder SCHEMA_ADDON_CONFIG configs repository).
Proof. apply maintains_for_each. intros addon. apply maintains_read_addon. Qed.

Lemma maintains_read_git_repository path :
  maintains P (_read_git_repository SCHEMA_ADDON_CONFIG
                 SCHEMA_REPOSITORY_CONFIG extract_hash_from_path path).
Proof.
  unfold _read_git_repository. apply maintains_bind.
  - apply maintains_try_except.
    + apply maintains_lift_bind. intros v _.
      apply maintains_bind; [apply maintains_validate|]. intros d.
      apply maintains_ret.
    + intros e. apply maintains_bind; [|intros _; apply maintains_ret].
      destruct (decide (e = OSError)); apply maintains_warning.
  - intros [info|]; [|apply maintains_ret].
    apply maintains_bind.
    + apply maintains_update. intros st HP. by apply (proj2 P_stable).
    + intros _. apply maintains_read_addons_folder.
Qed.

Lemma maintains_builtin_loop tag builtin_data :
  maintains P (builtin_loop tag builtin_data).
Proof.
  unfold builtin_loop. apply maintains_bind; [by intros st HP|].
  intros st0. cbv zeta.
  repeat match goal with |- maintains _ (if ?b then _ else _) =>
    destruct b end.
  - apply maintains_lift.
  - apply maintains_lift.
  - apply maintains_lift_bind. intros record _.
    apply maintains_update. intros st HP. by apply (proj2 P_stable).
  - apply maintains_ret.
Qed.

Lemma maintains_set_builtin_repositories builtin :
  maintains P (_set_builtin_repositories builtin).
Proof.
  unfold _set_builtin_repositories. apply maintains_bind.
  - apply maintains_try_except.
    + apply maintains_lift_bind. intros v _. apply maintains_ret.
    + intros e. apply maintains_bind; [apply maintains_warning|].
      intros _. apply maintains_ret.
  - intros [builtin_data|]; [|apply maintains_ret].
    apply maintains_bind; [apply maintains_builtin_loop|].
    intros _. apply maintains_builtin_loop.
Qed.

Lemma scan_from_start fs st :
  read_data_from_repositories SCHEMA_ADDON_CONFIG SCHEMA_REPOSITORY_CONFIG
    extract_hash_from_path fs st
  = (_read_addons_folder SCHEMA_ADDON_CONFIG (path_addons_core fs)
       REPOSITORY_CORE ;;
     _read_addons_folder SCHEMA_ADDON_CONFIG (path_addons_local fs)
       REPOSITORY_LOCAL ;;
     _set_builtin_repositories (builtin_json fs) ;;
     for_each (read_git_element SCHEMA_ADDON_CONFIG SCHEMA_REPOSITORY_CONFIG
                 extract_hash_from_path) (path_addons_git fs))
      (scan_start st).
Proof.
  unfold read_data_from_repositories.
  set (rest := _read_addons_folder _ _ _ ≫= _).
  unfold mbind, M_bind, update_self. cbn. fold (scan_start st).
  by destruct (rest (scan_start st)) as [[r st2] t2].
Qed.

Lemma scan_maintains fs st :
  P (scan_start st) →
  let x := read_data_from_repositories SCHEMA_ADDON_CONFIG
             SCHEMA_REPOSITORY_CONFIG extract_hash_from_path fs st in
  P x.1.2 ∧ Forall is_warning x.2.
Proof.
  intros HP. cbv zeta. rewrite scan_from_start. revert HP.
  generalize (scan_start st). change (maintains P
    (_read_addons_folder SCHEMA_ADDON_CONFIG (path_addons_core fs)
       REPOSITORY_CORE ;;
     _read_addons_folder SCHEMA_ADDON_CONFIG (path_addons_local fs)
       REPOSITORY_LOCAL ;;
     _set_builtin_repositories (builtin_json fs) ;;
     for_each (read_git_element SCHEMA_ADDON_CONFIG SCHEMA_REPOSITORY_CONFIG
                 extract_hash_from_path) (path_addons_git fs))).
  apply maintains_bind; [apply maintains_read_addons_folder|]. intros _.
  apply maintains_bind; [apply maintains_read_addons_folder|]. intros _.
  apply maintains_bind; [apply maintains_set_builtin_repositories|].
  intros _. apply maintains_for_each. intros element.
  unfold read_git_element. destruct (element_is_dir element).
  - apply maintains_read_git_repository.
  - apply maintains_ret.
Qed.

End ScanKeeps.

Section ScanInvariants.

Variable SCHEMA_ADDON_CONFIG : value → option dict.
Variable SCHEMA_REPOSITORY_CONFIG : value → option dict.
Variable extract_hash_from_path : string → string.

(** X19.  A scan, however it ends, leaves both halves of the installed
    state and the architecture as they were, and writes nothing: all it
    emits are warnings, never a save. *)
Theorem scan_keeps_installed_state fs st :
  let x := read_data_from_repositories SCHEMA_ADDON_CONFIG
             SCHEMA_REPOSITORY_CONFIG extract_hash_from_path fs st in
  _system_data x.1.2 = _system_data st ∧
  _user_data x.1.2 = _user_data st ∧
  arch x.1.2 = arch st ∧
  Forall is_warning x.2.
Proof.
  cbv zeta.
  destruct (scan_maintains SCHEMA_ADDON_CONFIG SCHEMA_REPOSITORY_CONFIG
              extract_hash_from_path
              (λ st', _system_data st' = _system_data st ∧
                      _user_data st' = _user_data st ∧
                      arch st' = arch st)) with (fs := fs) (st := st)
    as [(Hsystem & Huser & Harch) Hlog]; [by split|done|done].
Qed.

(** X20.  However the scan ends, every entry of the catalog it leaves
    carries the tag of its repository and the folder it was read from, and
    is filed under that tag and its own slug: the key is
    [<repository>_<slug>] for the repository and the slug the entry
    itself holds. *)
Theorem scan_catalog_entries fs st :
  let x := read_data_from_repositories SCHEMA_ADDON_CONFIG
             SCHEMA_REPOSITORY_CONFIG extract_hash_from_path fs st in
  ∀ key data, _addons_cache x.1.2 !! key = Some data →
    catalog_entry_ok key data.
Proof.
  cbv zeta.
  destruct (scan_maintains SCHEMA_ADDON_CONFIG SCHEMA_REPOSITORY_CONFIG
              extract_hash_from_path
              (λ st', ∀ key data, _addons_cache st' !! key = Some data →
                        catalog_entry_ok key data)) with (fs := fs) (st := st)
    as [Hentries _]; [|done|done].
  split.
  - intros st0 repository location config slug s HP Hslug Hs key data.
    cbn. rewrite lookup_insert. case_decide as Hkey; [|apply HP].
    intros [= <-]. subst key. exists repository, location, slug, s.
    unfold catalog_entry.
    split; [by rewrite lookup_insert_ne, lookup_insert_eq|].
    split; [by rewrite lookup_insert_eq|].
    split; [by rewrite !lookup_insert_ne|]. done.
  - intros st0 key record HP. exact HP.
Qed.

End ScanInvariants.

(** ** The catalog depends on the file system alone *)

Lemma bound_bind {A B} (m : M A) (f : A → M B) :
  catalog_bound m → (∀ a, catalog_bound (f a)) → catalog_bound (m ≫= f).
Proof.
  intros Hm Hf st1 st2 Hsame. unfold mbind, M_bind.
  destruct (Hm st1 st2 Hsame) as (Hr & Ht & Hsame1).
  destruct (m st1) as [[r1 st1'] t1], (m st2) as [[r2 st2'] t2].
  cbn in *. subst r2 t2. destruct r1 as [a|e|]; [|done..].
  destruct (Hf a st1' st2' Hsame1) as (Hr' & Ht' & Hsame2).
  destruct (f a st1') as [[r1 u1] v1], (f a st2') as [[r2 u2] v2].
  cbn in *. by subst.
Qed.

Lemma bound_lift {A} (o : outcome A) : catalog_bound (lift o).
Proof. by intros st1 st2 Hsame. Qed.

Lemma bound_ret {A} (a : A) : catalog_bound (mret a).
Proof. by intros st1 st2 Hsame. Qed.

Lemma bound_emit ev : catalog_bound (emit ev).
Proof. by intros st1 st2 Hsame. Qed.

Lemma bound_cache_update f :
  catalog_bound (update_self (with_addons_cache f)).
Proof.
  intros st1 st2 [Hcache Hrepos]. repeat split; cbn; congruence.
Qed.

Lemma bound_repositories_update f :
  catalog_bound (update_self (with_repositories_data f)).
Proof.
  intros st1 st2 [Hcache Hrepos]. repeat split; cbn; congruence.
Qed.

Lemma bound_try_except {A} (body : M A) caught handler :
  catalog_bound body → (∀ e, catalog_bound (handler e)) →
  catalog_bound (try_except body caught handler).
Proof.
  intros Hbody Hhandler st1 st2 Hsame. unfold try_except.
  destruct (Hbody st1 st2 Hsame) as (Hr & Ht & Hsame1).
  destruct (body st1) as [[r1 st1'] t1], (body st2) as [[r2 st2'] t2].
  cbn in *. subst r2 t2. destruct r1 as [a|e|]; [done| |done].
  destruct (bool_decide (e ∈ caught)); [|done].
  destruct (Hhandler e st1' st2' Hsame1) as (Hr' & Ht' & Hsame2).
  destruct (handler e st1') as [[r1 u1] v1], (handler e st2') as [[r2 u2] v2].
  cbn in *. by subst.
Qed.

Lemma bound_for_each {A} (body : A → M unit) l :
  (∀ x, catalog_bound (body x)) → catalog_bound (for_each body l).
Proof.
  intros Hbody. induction l as [|x l IH]; [apply bound_ret|].
  rewrite for_each_cons. apply bound_bind; [apply Hbody|done].
Qed.

Lemma bound_builtin_loop tag builtin_data :
  catalog_bound (builtin_loop tag builtin_data).
Proof.
  intros st1 st2 [Hcache Hrepos]. unfold builtin_loop. run_all.
  rewrite Hcache.
  repeat match goal with |- context [if ?b then _ else _] =>
    destruct b end; cbn; try done.
  destruct (py_getitem builtin_data tag); cbn; [|done..].
  repeat split; cbn; congruence.
Qed.

Section ScanBound.

Variable SCHEMA_ADDON_CONFIG : value → option dict.
Variable SCHEMA_REPOSITORY_CONFIG : value → option dict.
Variable extract_hash_from_path : string → string.

Lemma bound_validate schema v : catalog_bound (validate schema v).
Proof. unfold validate. destruct (schema v); [apply bound_ret|apply bound_lift]. Qed.

Lemma bound_read_addons_folder configs repository :
  catalog_bound (_read_addons_folder SCHEMA_ADDON_CONFIG configs repository).
Proof.
  apply bound_for_each. intros addon. unfold read_addon.
  apply bound_try_except.
  - apply bound_bind; [apply bound_lift|]. intros v.
    apply bound_bind; [apply bound_validate|]. intros config.
    apply bound_bind; [apply bound_lift|]. intros slug.
    apply bound_bind; [apply bound_lift|]. intros s.
    apply bound_cache_update.
  - intros e. destruct (decide (e = OSError)); apply bound_emit.
Qed.

Lemma bound_read_git_element element :
  catalog_bound (read_git_element SCHEMA_ADDON_CONFIG
                   SCHEMA_REPOSITORY_CONFIG extract_hash_from_path element).
Proof.
  unfold read_git_element. destruct (element_is_dir element);
    [|apply bound_ret].
  unfold _read_git_repository. apply bound_bind.
  - apply bound_try_except.
    + apply bound_bind; [apply bound_lift|]. intros v.
      apply bound_bind; [apply bound_validate|]. intros d. apply bound_ret.
    + intros e. apply bound_bind; [|intros _; apply bound_ret].
      destruct (decide (e = OSError)); apply bound_emit.
  - intros [info|]; [|apply bound_ret].
    apply bound_bind; [apply bound_repositories_update|].
    intros _. apply bound_read_addons_folder.
Qed.

(** X21.  The catalog is rebuilt, not merged: what a scan leaves in the
    catalog and in the repository records, how it ends and what it logs
    depend on the files alone, not on the object that scans, whatever
    catalog, records and installed state it had. *)
Theorem scan_depends_on_files_only fs st1 st2 :
  let scan := read_data_from_repositories SCHEMA_ADDON_CONFIG
                SCHEMA_REPOSITORY_CONFIG extract_hash_from_path fs in
  (scan st1).1.1 = (scan st2).1.1 ∧
  (scan st1).2 = (scan st2).2 ∧
  _addons_cache (scan st1).1.2 = _addons_cache (scan st2).1.2 ∧
  _repositories_data (scan st1).1.2 = _repositories_data (scan st2).1.2.
Proof.
  cbv zeta. rewrite !scan_from_start.
  assert (Hbound : catalog_bound
    (_read_addons_folder SCHEMA_ADDON_CONFIG (path_addons_core fs)
       REPOSITORY_CORE ;;
     _read_addons_folder SCHEMA_ADDON_CONFIG (path_addons_local fs)
       REPOSITORY_LOCAL ;;
     _set_builtin_repositories (builtin_json fs) ;;
     for_each (read_git_element SCHEMA_ADDON_CONFIG SCHEMA_REPOSITORY_CONFIG
                 extract_hash_from_path) (path_addons_git fs))).
  { apply bound_bind; [apply bound_read_addons_folder|]. intros _.
    apply bound_bind; [apply bound_read_addons_folder|]. intros _.
    apply bound_bind.
    - unfold _set_builtin_repositories. apply bound_bind.
      + apply bound_try_except.
        * apply bound_bind; [apply bound_lift|]. intros v. apply bound_ret.
        * intros e. apply bound_bind; [apply bound_emit|].
          intros _. apply bound_ret.
      + intros [builtin_data|]; [|apply bound_ret].
        apply bound_bind; [apply bound_builtin_loop|].
        intros _. apply bound_builtin_loop.
    - intros _. apply bound_for_each. apply bound_read_git_element. }
  destruct (Hbound (scan_start st1) (scan_start st2)) as (Hr & Ht & Hc & Hd);
    [by split|]. done.
Qed.

End ScanBound.

(** ** The built-in repositories *)

Lemma existsb_values {V} (m : gmap string V) (f : V → bool) :
  existsb f (map_to_list m).*2 = true ↔
  ∃ k v, m !! k = Some v ∧ f v = true.
Proof.
  rewrite existsb_exists. split.
  - intros (v & Hin & Hf). apply list_elem_of_In in Hin.
    apply list_elem_of_fmap in Hin as ([k v'] & -> & Hin).
    apply elem_of_map_to_list in Hin. by exists k, v'.
  - intros (k & v & Hk & Hf). exists v. split; [|done].
    apply list_elem_of_In, list_elem_of_fmap. exists (k, v).
    split; [done|]. by apply elem_of_map_to_list.
Qed.

Lemma py_eq_str r tag : py_eq (VStr r) (VStr tag) = true ↔ r = tag.
Proof.
  unfold py_eq. cbn. rewrite bool_decide_eq_true.
  split; [by intros [= ->]|by intros ->].
Qed.

Lemma catalog_none_lacking st :
  catalog_tagged st →
  existsb (λ data : dict, bool_decide (data !! ATTR_REPOSITORY = None))
    (map_to_list (_addons_cache st)).*2 = false.
Proof.
  intros Htagged. apply not_true_is_false.
  intros (k & v & Hk & Hf)%existsb_values.
  apply bool_decide_eq_true in Hf.
  destruct (Htagged k v Hk) as [r Hr]. congruence.
Qed.

Lemma catalog_hit st tag :
  catalog_tagged st →
  existsb (λ data : dict,
    match data !! ATTR_REPOSITORY with
    | Some r => py_eq r (VStr tag)
    | None => false
    end) (map_to_list (_addons_cache st)).*2 = true ↔
  catalog_has_tag tag st.
Proof.
  intros Htagged. rewrite existsb_values. unfold catalog_has_tag. split.
  - intros (k & v & Hk & Hf). exists k, v. split; [done|].
    destruct (Htagged k v Hk) as [r Hr]. rewrite Hr in Hf.
    apply py_eq_str in Hf. by subst.
  - intros (k & v & Hk & Hr). exists k, v. split; [done|].
    rewrite Hr. by apply py_eq_str.
Qed.

Lemma builtin_loop_hit st tag table record :
  catalog_tagged st → catalog_has_tag tag st → table !! tag = Some record →
  builtin_loop tag (VDict table) st
    = (Ret (), with_repositories_data <[tag := record]> st, []).
Proof.
  intros Htagged Htag Hrecord. unfold builtin_loop. run_all.
  rewrite (catalog_none_lacking st Htagged).
  apply (catalog_hit st tag Htagged) in Htag. rewrite Htag.
  run_all. by rewrite (getitem_Some _ _ _ Hrecord).
Qed.

Lemma builtin_loop_miss st tag builtin_data :
  catalog_tagged st → ¬ catalog_has_tag tag st →
  builtin_loop tag builtin_data st = (Ret (), st, []).
Proof.
  intros Htagged Htag. unfold builtin_loop. run_all.
  rewrite (catalog_none_lacking st Htagged).
  destruct (existsb _ _) eqn:Hhit; [|done].
  exfalso. by apply Htag, (catalog_hit st tag Htagged).
Qed.

Lemma builtin_loop_touches tag builtin_data st :
  _addons_cache (builtin_loop tag builtin_data st).1.2 = _addons_cache st ∧
  ∀ other, other ≠ tag →
    _repositories_data (builtin_loop tag builtin_data st).1.2 !! other
      = _repositories_data st !! other.
Proof.
  unfold builtin_loop. run_all.
  repeat match goal with |- context [if ?b then _ else _] =>
    destruct b end; cbn; try done.
  destruct (py_getitem builtin_data tag); cbn; [|done..].
  split; [done|]. intros other Hother. by rewrite lookup_insert_ne.
Qed.

Lemma builtin_loop_spec st tag table record :
  catalog_tagged st → table !! tag = Some record →
  ∃ st1,
    builtin_loop tag (VDict table) st = (Ret (), st1, []) ∧
    _addons_cache st1 = _addons_cache st ∧
    _system_data st1 = _system_data st ∧
    _user_data st1 = _user_data st ∧
    (catalog_has_tag tag st →
     _repositories_data st1 !! tag = Some record) ∧
    (¬ catalog_has_tag tag st →
     _repositories_data st1 !! tag = _repositories_data st !! tag) ∧
    (∀ key, key ≠ tag →
       _repositories_data st1 !! key = _repositories_data st !! key).
Proof.
  intros Htagged Hrecord.
  destruct (existsb (λ data : dict,
    match data !! ATTR_REPOSITORY with
    | Some r => py_eq r (VStr tag)
    | None => false
    end) (map_to_list (_addons_cache st)).*2) eqn:Hhit.
  - apply (catalog_hit st tag Htagged) in Hhit.
    eexists. split; [by apply builtin_loop_hit|]. cbn.
    repeat split; try done.
    + intros _. apply lookup_insert_eq.
    + intros key Hkey. by rewrite lookup_insert_ne.
  - assert (¬ catalog_has_tag tag st) as Hmiss.
    { intros Htag%(catalog_hit st tag Htagged). congruence. }
    exists st. split; [by apply builtin_loop_miss|]. by repeat split.
Qed.

Lemma set_builtin_json v st :
  _set_builtin_repositories (Json v) st
    = (builtin_loop REPOSITORY_CORE v ;; builtin_loop REPOSITORY_LOCAL v) st.
Proof.
  unfold _set_builtin_repositories, try_except, mbind, M_bind, mret, M_ret,
    lift. cbn.
  destruct (builtin_loop REPOSITORY_CORE v st) as [[[[]|e|] st1] t1];
    [|done..].
  by destruct (builtin_loop REPOSITORY_LOCAL v st1) as [[r st2] t2].
Qed.

(** X22.  With a built-in table that holds a record for "core" and one
    for "local", over a catalog whose entries carry their repository tags,
    [_set_builtin_repositories] registers the record of a built-in
    repository when the catalog has an addon of it and leaves its slot
    alone when the catalog has none; it touches no other record and nothing
    else of the object. *)
Theorem builtin_repositories_registered st table core_record local_record :
  catalog_tagged st →
  table !! REPOSITORY_CORE = Some core_record →
  table !! REPOSITORY_LOCAL = Some local_record →
  ∃ st',
    _set_builtin_repositories (Json (VDict table)) st = (Ret (), st', []) ∧
    (catalog_has_tag REPOSITORY_CORE st →
     _repositories_data st' !! REPOSITORY_CORE = Some core_record) ∧
    (¬ catalog_has_tag REPOSITORY_CORE st →
     _repositories_data st' !! REPOSITORY_CORE
       = _repositories_data st !! REPOSITORY_CORE) ∧
    (catalog_has_tag REPOSITORY_LOCAL st →
     _repositories_data st' !! REPOSITORY_LOCAL = Some local_record) ∧
    (¬ catalog_has_tag REPOSITORY_LOCAL st →
     _repositories_data st' !! REPOSITORY_LOCAL
       = _repositories_data st !! REPOSITORY_LOCAL) ∧
    (∀ key, key ≠ REPOSITORY_CORE → key ≠ REPOSITORY_LOCAL →
       _repositories_data st' !! key = _repositories_data st !! key) ∧
    _addons_cache st' = _addons_cache st ∧
    _system_data st' = _system_data st ∧
    _user_data st' = _user_data st.
Proof.
  intros Htagged Hcore Hlocal.
  destruct (builtin_loop_spec st REPOSITORY_CORE table core_record)
    as (st1 & Hrun1 & Hcache1 & Hsys1 & Huser1 & Hhit1 & Hmiss1 & Hother1);
    [done..|].
  assert (Htagged1 : catalog_tagged st1).
  { unfold catalog_tagged. by rewrite Hcache1. }
  assert (Hsame : ∀ tag, catalog_has_tag tag st1 ↔ catalog_has_tag tag st).
  { intros tag. unfold catalog_has_tag. by rewrite Hcache1. }
  destruct (builtin_loop_spec st1 REPOSITORY_LOCAL table local_record)
    as (st2 & Hrun2 & Hcache2 & Hsys2 & Huser2 & Hhit2 & Hmiss2 & Hother2);
    [done..|].
  exists st2. split.
  { rewrite set_builtin_json. rewrite (bind_ret _ _ _ _ _ _ Hrun1).
    by rewrite Hrun2. }
  split; [intros Htag; rewrite Hother2 by done; by apply Hhit1|].
  split; [intros Htag; rewrite Hother2 by done; by apply Hmiss1|].
  split; [intros Htag; by apply Hhit2, Hsame|].
  split.
  { intros Htag. rewrite Hmiss2 by (by rewrite Hsame).
    by apply Hother1. }
  split.
  { intros key Hc Hl. rewrite Hother2 by done. by apply Hother1. }
  repeat split; congruence.
Qed.

(** X23.  No built-in repository is advertised without an addon: over a
    catalog whose entries carry their repository tags and none of which is
    of the built-in repository [tag], the slot of [tag] in the repository
    records is after [_set_builtin_repositories] what it was before,
    whatever built-in.json holds and however the call ends. *)
Theorem builtin_repository_needs_addon st builtin tag :
  catalog_tagged st →
  tag = REPOSITORY_CORE ∨ tag = REPOSITORY_LOCAL →
  ¬ catalog_has_tag tag st →
  _repositories_data (_set_builtin_repositories builtin st).1.2 !! tag
    = _repositories_data st !! tag.
Proof.
  intros Htagged Htag Hmiss.
  destruct builtin as [| | |v]; [done..|].
  rewrite set_builtin_json. unfold mbind, M_bind.
  destruct (builtin_loop_touches REPOSITORY_CORE v st) as [Hcache1 Hother1].
  destruct Htag as [->| ->].
  - rewrite (builtin_loop_miss st REPOSITORY_CORE v Htagged Hmiss).
    destruct (builtin_loop_touches REPOSITORY_LOCAL v st) as [_ Hother2].
    destruct (builtin_loop REPOSITORY_LOCAL v st) as [[r st2] t2].
    cbn in *. by apply Hother2.
  - destruct (builtin_loop REPOSITORY_CORE v st) as [[[[]|e|] st1] t1];
      cbn in *; [|by apply Hother1..].
    rewrite builtin_loop_miss.
    + cbn. by apply Hother1.
    + unfold catalog_tagged. by rewrite Hcache1.
    + unfold catalog_has_tag. by rewrite Hcache1.
Qed.

(** ** Instances *)

(** A folder with a sound definition and a missing one. *)
Lemma unusable_config_skipped_witness :
  let schema := object_with [ATTR_SLUG; ATTR_VERSION] in
  let good := mkAddonFile "foo/config.json" "foo"
    (Json (VDict {[ ATTR_SLUG := VStr "foo"; ATTR_VERSION := VStr "1" ]})) in
  let bad := mkAddonFile "bar/config.json" "bar" Missing in
  let st := mkAddonsData ∅ ∅ ∅ ∅ VNone in
  let folder configs := _read_addons_folder schema configs "local" st in
  (folder [good; bad]).1.1 = Ret () ∧
  (folder [good; bad]).1.2 = (folder [good]).1.2 ∧
  (folder [good; bad]).2 = [EvWarning (WarnAddonRead "bar/config.json")].
Proof.
  intros schema good bad st folder.
  destruct (unusable_config_skipped schema "local" [good] bad [] st)
    as (Hr & Hst & _); [by left|].
  cbn [app] in Hr, Hst. unfold folder.
  split; [rewrite Hr; reflexivity|]. split; [exact Hst|reflexivity].
Defined.

(** A file that is not JSON between two sound definitions: the second one
    does not reach the catalog. *)
Lemma undecodable_config_aborts_witness :
  let schema := object_with [ATTR_SLUG; ATTR_VERSION] in
  let file slug := mkAddonFile (slug +:+ "/config.json") slug
    (Json (VDict {[ ATTR_SLUG := VStr slug; ATTR_VERSION := VStr "1" ]})) in
  let bad := mkAddonFile "bar/config.json" "bar" NotJson in
  let st := mkAddonsData ∅ ∅ ∅ ∅ VNone in
  let folder configs := _read_addons_folder schema configs "local" st in
  (folder [file "foo"; bad; file "late"]).1.1 ≠ Ret () ∧
  is_Some (_addons_cache (folder [file "foo"; bad; file "late"]).1.2
             !! "local_foo") ∧
  _addons_cache (folder [file "foo"; bad; file "late"]).1.2 !! "local_late"
    = None.
Proof.
  intros schema file bad st folder.
  destruct (undecodable_config_aborts schema "local" [file "foo"] bad
              [file "late"] st) as [Hne Heq]; [reflexivity|].
  split; [exact Hne|].
  change (folder [file "foo"; bad; file "late"])
    with (_read_addons_folder schema ([file "foo"] ++ bad :: [file "late"])
            "local" st).
  rewrite Heq. split; [by eexists|reflexivity].
Defined.

(** Two definitions of the same slug in one folder: the later one stays. *)
Lemma valid_config_stored_witness :
  let schema := object_with [ATTR_SLUG; ATTR_VERSION] in
  let config version : dict :=
    {[ ATTR_SLUG := VStr "foo"; ATTR_VERSION := VStr version ]} in
  let file folder version :=
    mkAddonFile (folder +:+ "/config.json") folder
      (Json (VDict (config version))) in
  let st := mkAddonsData ∅ ∅ ∅ ∅ VNone in
  ∃ st' entry,
    _read_addons_folder schema [file "old" "1"; file "new" "2"] "local" st
      = (Ret (), st', []) ∧
    _addons_cache st' !! "local_foo" = Some entry ∧
    entry !! ATTR_VERSION = Some (VStr "2") ∧
    entry !! ATTR_LOCATON = Some (VStr "new") ∧
    entry !! ATTR_REPOSITORY = Some (VStr "local").
Proof.
  intros schema config file st.
  destruct (valid_config_stored schema "local" [file "old" "1"]
              (file "new" "2") (config "2") "foo" st
              (_read_addons_folder schema [file "old" "1"] "local" st).1.2 [])
    as (st' & entry & Hrun & Hentry & Hrepository & Hlocation & Hkeys & _).
  - reflexivity.
  - exists (VDict (config "2")). by repeat split.
  - exists st', entry. split; [exact Hrun|]. split; [exact Hentry|].
    split; [by rewrite Hkeys|]. by split.
Defined.

(** A stray file beside a repository. *)
Lemma plain_file_among_repositories_witness :
  let schema := object_with [ATTR_SLUG] in
  let stray := mkRepositoryElement "README.md" false Missing [] in
  let good := mkRepositoryElement "a0d7b954" true
    (Json (VDict {[ ATTR_NAME := VStr "Community" ]})) [] in
  let st := mkAddonsData ∅ ∅ ∅ ∅ VNone in
  read_data_from_repositories schema (object_with [ATTR_NAME]) (λ path, path)
    (mkFilesystem [] [] [stray; good] Missing) st
  = read_data_from_repositories schema (object_with [ATTR_NAME])
      (λ path, path) (mkFilesystem [] [] [good] Missing) st.
Proof.
  intros schema stray good st.
  apply (plain_file_among_repositories schema (object_with [ATTR_NAME])
           (λ path, path) (mkFilesystem [] [] [stray; good] Missing)
           [] stray [good] st); reflexivity.
Defined.

(** A catalog with a core addon only: "core" is registered, "local" is
    not. *)
Lemma builtin_repositories_registered_witness :
  let table : dict :=
    {[ REPOSITORY_CORE := VDict {[ ATTR_NAME := VStr "Built-in Add-ons" ]};
       REPOSITORY_LOCAL := VDict {[ ATTR_NAME := VStr "Local Add-ons" ]} ]} in
  let st := mkAddonsData ∅ ∅
    {[ "core_ssh" := {[ ATTR_REPOSITORY := VStr "core" ]} ]} ∅ VNone in
  ∃ st',
    _set_builtin_repositories (Json (VDict table)) st = (Ret (), st', []) ∧
    _repositories_data st' !! REPOSITORY_CORE
      = Some (VDict {[ ATTR_NAME := VStr "Built-in Add-ons" ]}) ∧
    _repositories_data st' !! REPOSITORY_LOCAL = None.
Proof.
  intros table st.
  destruct (builtin_repositories_registered st table
              (VDict {[ ATTR_NAME := VStr "Built-in Add-ons" ]})
              (VDict {[ ATTR_NAME := VStr "Local Add-ons" ]}))
    as (st' & Hrun & Hcore & _ & _ & Hlocal & _).
  - intros key data Hkey. cbn in Hkey.
    apply lookup_singleton_Some in Hkey as [_ <-]. by eexists.
  - reflexivity.
  - reflexivity.
  - exists st'. split; [exact Hrun|]. split.
    + apply Hcore.
      exists "core_ssh", {[ ATTR_REPOSITORY := VStr "core" ]}.
      split; vm_compute; reflexivity.
    + rewrite Hlocal; [reflexivity|].
      intros (key & data & Hkey & Htag). cbn in Hkey.
      apply lookup_singleton_Some in Hkey as [_ <-].
      vm_compute in Htag. discriminate.
Defined.

(** No core addon in the catalog: no "core" record, whatever the table. *)
Lemma builtin_repository_needs_addon_witness :
  let table : dict :=
    {[ REPOSITORY_CORE := VDict {[ ATTR_NAME := VStr "Built-in Add-ons" ]};
       REPOSITORY_LOCAL := VDict {[ ATTR_NAME := VStr "Local Add-ons" ]} ]} in
  let st := mkAddonsData ∅ ∅
    {[ "local_bar" := {[ ATTR_REPOSITORY := VStr "local" ]} ]} ∅ VNone in
  _repositories_data (_set_builtin_repositories (Json (VDict table)) st).1.2
    !! REPOSITORY_CORE = None.
Proof.
  intros table st.
  rewrite (builtin_repository_needs_addon st (Json (VDict table))
             REPOSITORY_CORE).
  - reflexivity.
  - intros key data Hkey. cbn in Hkey.
    apply lookup_singleton_Some in Hkey as [_ <-]. by eexists.
  - by left.
  - intros (key & data & Hkey & Htag). cbn in Hkey.
    apply lookup_singleton_Some in Hkey as [_ <-].
    vm_compute in Htag. discriminate.
Defined.

(** A local addon read from the folder "foo". *)
Lemma scan_catalog_entries_witness :
  let schema := object_with [ATTR_SLUG; ATTR_VERSION] in
  let file := mkAddonFile "foo/config.json" "foo"
    (Json (VDict {[ ATTR_SLUG := VStr "foo"; ATTR_VERSION := VStr "1" ]})) in
  let fs := mkFilesystem [] [file] [] Missing in
  let st := mkAddonsData ∅ ∅ ∅ ∅ VNone in
  let scan := read_data_from_repositories schema (object_with [ATTR_NAME])
                (λ path, path) in
  ∃ data,
    _addons_cache (scan fs st).1.2 !! "local_foo" = Some data ∧
    catalog_entry_ok "local_foo" data.
Proof.
  intros schema file fs st scan. eexists. split; [reflexivity|].
  apply (scan_catalog_entries schema (object_with [ATTR_NAME])
           (λ path, path) fs st "local_foo").
  reflexivity.
Defined.
